(** * Request handlers of the social-media backend, embedded in Rocq

    The development follows [src/routes/tweets.js], [src/routes/users.js]
    (which also carries the search router and the Tweet schema).  The
    document store is modelled as two ordered collections; every handler is
    a function from the store to a new store and an HTTP response.
    Exceptions raised by the persistence layer ([CastError],
    [ValidationError], server errors) are values of an error monad, and the
    [try { ... } catch (err) { ... }] of each handler is [try_catch].
    A string holds the UTF-8 bytes of the text the program holds:
    [utf16_length] gives the length JavaScript sees, white space includes
    the encoded Unicode spaces, and case folding is that of the ASCII
    letters. *)

From Stdlib Require Import ZArith Ascii String List.
From stdpp Require Import base tactics option list strings gmap sorting.

Open Scope string_scope.
Open Scope nat_scope.

(** ** Identifiers *)

(** An ObjectId is kept in the textual form [ObjectId.toString] prints:
    24 lower-case hexadecimal digits.  Path parameters are raw strings and
    go through [castObjectId] whenever the persistence layer receives
    them; the handlers' own comparisons ([===], [includes]) see the raw
    text. *)
Abbreviation ObjectId := string (only parsing).

Definition is_hex_digit (c : ascii) : bool :=
  let n := nat_of_ascii c in
  ((48 <=? n) && (n <=? 57)) || ((97 <=? n) && (n <=? 102))
  || ((65 <=? n) && (n <=? 70)).

Definition lower_ascii (c : ascii) : ascii :=
  let n := nat_of_ascii c in
  if (65 <=? n) && (n <=? 90) then ascii_of_nat (n + 32) else c.

Fixpoint string_forallb (p : ascii → bool) (s : string) : bool :=
  match s with
  | EmptyString => true
  | String c s' => p c && string_forallb p s'
  end.

Fixpoint toLowerCase (s : string) : string :=
  match s with
  | EmptyString => EmptyString
  | String c s' => String (lower_ascii c) (toLowerCase s')
  end.

(** The cast the persistence layer applies to a string where the schema
    expects an ObjectId: 24 hexadecimal digits of either case are accepted
    and denote the identifier printed in lower case; anything else is a
    [CastError] of kind ["ObjectId"]. *)
Definition castObjectId (s : string) : option ObjectId :=
  if (String.length s =? 24) && string_forallb is_hex_digit s
  then Some (toLowerCase s) else None.

(** A string is the text of an identifier when casting gives it back. *)
Definition is_id_text (s : string) : Prop := castObjectId s = Some s.

Global Instance is_id_text_dec s : Decision (is_id_text s).
Proof. unfold is_id_text. apply _. Defined.

(** ** Documents *)

Module User.
(** Modelled from the spec: the User schema file is not part of the
    sources; the fields are those of the spec's data model, with string
    profile fields and the creation and update timestamps (milliseconds)
    that the persistence layer keeps. *)
Record doc := mk {
  _id : ObjectId;
  name : string;
  username : string;
  email : string;
  password : string;
  bio : string;
  location : string;
  website : string;
  profileImage : string;
  coverImage : string;
  followers : list ObjectId;
  following : list ObjectId;
  createdAt : Z;
  updatedAt : Z
}.

(** The [id] virtual: the identifier as a string. *)
Definition id (u : doc) : string := _id u.

Definition set_following (l : list ObjectId) (u : doc) : doc :=
  mk (_id u) (name u) (username u) (email u) (password u) (bio u)
     (location u) (website u) (profileImage u) (coverImage u)
     (followers u) l (createdAt u) (updatedAt u).

Definition set_followers (l : list ObjectId) (u : doc) : doc :=
  mk (_id u) (name u) (username u) (email u) (password u) (bio u)
     (location u) (website u) (profileImage u) (coverImage u)
     l (following u) (createdAt u) (updatedAt u).

(** The update timestamp every update of a user rewrites. *)
Definition set_updatedAt (now : Z) (u : doc) : doc :=
  mk (_id u) (name u) (username u) (email u) (password u) (bio u)
     (location u) (website u) (profileImage u) (coverImage u)
     (followers u) (following u) (createdAt u) now.
End User.

Module Tweet.
(** [TweetSchema]: the declared fields and [createdAt], the timestamp
    the schema option [timestamps: true] sets on creation (milliseconds).
    The bookkeeping a later [save()] rewrites ([updatedAt] and the version
    key) is not part of the record: no statement below speaks of it. *)
Record doc := mk {
  _id : ObjectId;
  user : ObjectId;
  content : string;
  image : option string;
  likes : list ObjectId;
  retweets : list ObjectId;
  parent : option ObjectId;
  isReply : bool;
  createdAt : Z
}.

Definition set_likes (l : list ObjectId) (t : doc) : doc :=
  mk (_id t) (user t) (content t) (image t) l (retweets t)
     (parent t) (isReply t) (createdAt t).

Definition set_retweets (l : list ObjectId) (t : doc) : doc :=
  mk (_id t) (user t) (content t) (image t) (likes t) l
     (parent t) (isReply t) (createdAt t).
End Tweet.

Global Instance user_doc_eq_dec : EqDecision User.doc.
Proof. solve_decision. Defined.

Global Instance tweet_doc_eq_dec : EqDecision Tweet.doc.
Proof. solve_decision. Defined.

(** The document store: the two collections in insertion order. *)
Record Store := mkStore {
  users : list User.doc;
  tweets : list Tweet.doc
}.

Definition set_users (us : list User.doc) (st : Store) : Store :=
  mkStore us (tweets st).

Definition set_tweets (ts : list Tweet.doc) (st : Store) : Store :=
  mkStore (users st) ts.

(** [_id] is the primary key of a collection. *)
Definition wf_store (st : Store) : Prop :=
  NoDup (User._id <$> users st) ∧ NoDup (Tweet._id <$> tweets st).

(** ** Errors and the persistence monad *)

(** The object caught by a handler; the handlers only look at [kind]. *)
Record Err := mkErr {
  kind : option string;
  message : string
}.

Definition CastError : Err := mkErr (Some "ObjectId") "Cast to ObjectId failed".
Definition CastErrorString : Err := mkErr (Some "string") "Cast to string failed".
Definition ValidationError : Err := mkErr None "Validation failed".
Definition MongoServerError : Err := mkErr None "Regular expression is invalid".

Inductive result (A : Type) : Type :=
  | Ok (a : A)
  | Throw (e : Err).
Arguments Ok {A} a.
Arguments Throw {A} e.

(** An awaited persistence call: it reads and writes the store and either
    returns or throws.  Writes made before a throw stay. *)
Definition db (A : Type) : Type := Store → Store * result A.

Global Instance db_ret : MRet db := λ A a st, (st, Ok a).

Global Instance db_bind : MBind db := λ A B f m st,
  match m st with
  | (st', Ok a) => f a st'
  | (st', Throw e) => (st', Throw e)
  end.

Definition throw {A} (e : Err) : db A := λ st, (st, Throw e).
Definition get_users : db (list User.doc) := λ st, (st, Ok (users st)).
Definition get_tweets : db (list Tweet.doc) := λ st, (st, Ok (tweets st)).
Definition put_users (us : list User.doc) : db unit :=
  λ st, (set_users us st, Ok tt).
Definition put_tweets (ts : list Tweet.doc) : db unit :=
  λ st, (set_tweets ts st, Ok tt).

(** Cast of a path parameter, raising the [CastError] the handlers test
    with [err.kind === 'ObjectId']. *)
Definition cast (s : string) : db ObjectId :=
  match castObjectId s with
  | Some oid => mret oid
  | None => throw CastError
  end.

(** ** Responses *)

(** The public card [populate(path, 'name username profileImage')] puts
    in place of a user reference. *)
Record UserCard := mkCard {
  card_id : ObjectId;
  card_name : string;
  card_username : string;
  card_profileImage : string
}.

(** A user as serialised; a field excluded by [select] is [None]. *)
Record UserJson := mkUserJson {
  uj_id : ObjectId;
  uj_name : string;
  uj_username : string;
  uj_email : option string;
  uj_password : option string;
  uj_bio : string;
  uj_location : string;
  uj_website : string;
  uj_profileImage : string;
  uj_coverImage : string;
  uj_followers : list ObjectId;
  uj_following : list ObjectId;
  uj_createdAt : Z;
  uj_updatedAt : Z
}.

(** A tweet as serialised: the fields of the stored document, the
    populated owner when [populate('user', ...)] ran ([Some None] is a
    dangling reference, serialised as null), and the populated parent with
    its own populated owner when the nested populate ran.  In the JSON a
    populated value stands in the place of the raw reference: where
    [tj_user] or [tj_parent] is [Some _], the [user] or [parent] of
    [tj_doc] is not part of the answer. *)
Record TweetJson := mkTweetJson {
  tj_doc : Tweet.doc;
  tj_user : option (option UserCard);
  tj_parent : option (option (Tweet.doc * option UserCard))
}.

Inductive Body : Type :=
  | BMessage (msg : string)
  | BText (txt : string)
  | BErrors (errors : list string)
  | BToggle (key : string) (flag : bool) (userId : string)
  | BTweet (t : TweetJson)
  | BTweets (ts : list TweetJson)
  | BUser (u : option UserJson)
  | BSearch (us : list UserJson) (ts : list TweetJson).

Record Response := mkResponse {
  status : nat;
  body : Body
}.

(** [res.json(b)], [res.status(n).json(b)], [res.status(n).send(s)]. *)
Definition json (b : Body) : Response := mkResponse 200 b.
Definition status_json (n : nat) (b : Body) : Response := mkResponse n b.
Definition status_send (n : nat) (s : string) : Response := mkResponse n (BText s).

(** [try { body } catch (err) { handler }] around a whole request. *)
Definition try_catch (body : db Response) (handler : Err → Response)
  : Store → Store * Response :=
  λ st, match body st with
        | (st', Ok r) => (st', r)
        | (st', Throw e) => (st', handler e)
        end.

(** The catch clause of the tweet routes. *)
Definition catch_not_found (msg : string) (err : Err) : Response :=
  if decide (kind err = Some "ObjectId")
  then status_json 404 (BMessage msg)
  else status_send 500 "Server error".

(** The catch clause of the user and search routes. *)
Definition catch_server_error (err : Err) : Response :=
  status_send 500 "Server error".

(** ** Collection operations *)

(** [Array.prototype.includes] on an array of ObjectIds with a string
    argument: an element matches when its text equals the argument. *)
Definition includes (l : list ObjectId) (x : string) : bool :=
  bool_decide (x ∈ l).

(** [arr.unshift(x)]. *)
Definition unshift (x : ObjectId) (l : list ObjectId) : list ObjectId := x :: l.

(** [$pull] and [$addToSet] on an array field. *)
Definition pull (x : ObjectId) (l : list ObjectId) : list ObjectId :=
  filter (λ y, y ≠ x) l.

Definition addToSet (x : ObjectId) (l : list ObjectId) : list ObjectId :=
  if decide (x ∈ l) then l else (l ++ [x])%list.

Definition find_tweet (oid : ObjectId) (ts : list Tweet.doc) : option Tweet.doc :=
  List.find (λ t, bool_decide (Tweet._id t = oid)) ts.

Definition find_user (oid : ObjectId) (us : list User.doc) : option User.doc :=
  List.find (λ u, bool_decide (User._id u = oid)) us.

(** [Tweet.findById(id)]. *)
Definition Tweet_findById (id : string) : db (option Tweet.doc) :=
  oid ← cast id;
  ts ← get_tweets;
  mret (find_tweet oid ts).

(** [User.findById(id)]. *)
Definition User_findById (id : string) : db (option User.doc) :=
  oid ← cast id;
  us ← get_users;
  mret (find_user oid us).

(** [doc.save()] on a document loaded from the collection: the stored
    document with the same [_id] takes the new field values. *)
Definition Tweet_save (t : Tweet.doc) : db unit :=
  ts ← get_tweets;
  put_tweets ((λ t0, if decide (Tweet._id t0 = Tweet._id t) then t else t0) <$> ts).

(** The length JavaScript sees: the UTF-16 code units of the text.  The
    first byte of a character counts one unit; a four-byte character is a
    surrogate pair, and its second unit is counted at the continuation
    byte that follows its first byte; other continuation bytes (10xxxxxx)
    count nothing. *)
Definition is_continuation (c : ascii) : bool :=
  let n := nat_of_ascii c in (128 <=? n) && (n <? 192).

Definition opens_four_bytes (c : ascii) : bool := 240 <=? nat_of_ascii c.

Fixpoint utf16_units (after_four : bool) (s : string) : nat :=
  match s with
  | EmptyString => 0
  | String c s' =>
    if is_continuation c
    then (if after_four then 1 else 0) + utf16_units false s'
    else 1 + utf16_units (opens_four_bytes c) s'
  end.

Definition utf16_length (s : string) : nat := utf16_units false s.

(** Schema validation run by [save()] on a new document: [content] is
    required (a non-empty string) and has at most 280 characters, counted
    as JavaScript counts them; the required [user] is always supplied by
    the routes. *)
Definition Tweet_validate (t : Tweet.doc) : bool :=
  negb (String.eqb (Tweet.content t) "")
  && (utf16_length (Tweet.content t) <=? 280).

(** [newDoc.save()]: validate, then insert at the end of the collection. *)
Definition Tweet_insert (t : Tweet.doc) : db Tweet.doc :=
  if Tweet_validate t then
    ts ← get_tweets;
    _ ← put_tweets (ts ++ [t])%list;
    mret t
  else throw ValidationError.

(** [tweet.deleteOne()]. *)
Definition Tweet_deleteOne (t : Tweet.doc) : db unit :=
  ts ← get_tweets;
  put_tweets (filter (λ t0, Tweet._id t0 ≠ Tweet._id t) ts).

(** Newest first: the order of [sort({ createdAt: -1 })]. *)
Definition newer (a b : Tweet.doc) : Prop :=
  (Tweet.createdAt b ≤ Tweet.createdAt a)%Z.

Global Instance newer_dec : RelDecision newer.
Proof. intros a b. unfold newer. apply _. Defined.

Definition sort_newest (ts : list Tweet.doc) : list Tweet.doc :=
  merge_sort newer ts.

(** [.skip(n)]: the server rejects a negative count. *)
Definition skip {A} (n : Z) (l : list A) : db (list A) :=
  if (n <? 0)%Z then throw MongoServerError else mret (drop (Z.to_nat n) l).

(** [.limit(n)]. *)
Definition limit {A} (n : nat) (l : list A) : list A := take n l.

Definition card (u : User.doc) : UserCard :=
  mkCard (User._id u) (User.name u) (User.username u) (User.profileImage u).

(** [populate('user', 'name username profileImage')] on one tweet. *)
Definition populate_user (t : Tweet.doc) : db TweetJson :=
  us ← get_users;
  mret (mkTweetJson t (Some (card <$> find_user (Tweet.user t) us)) None).

(** The double populate of the timeline and of the read by identifier:
    owner, then parent with the parent's owner. *)
Definition populate_user_parent (t : Tweet.doc) : db TweetJson :=
  us ← get_users;
  ts ← get_tweets;
  let p := Tweet.parent t ≫= λ pid, find_tweet pid ts in
  mret (mkTweetJson t (Some (card <$> find_user (Tweet.user t) us))
          (Some ((λ pt, (pt, card <$> find_user (Tweet.user pt) us)) <$> p))).

Fixpoint db_map {A B} (f : A → db B) (l : list A) : db (list B) :=
  match l with
  | [] => mret []
  | x :: l' => y ← f x; ys ← db_map f l'; mret (y :: ys)
  end.

(** [select('-password')] and [select('-password -email')]. *)
Definition select_minus_password (u : User.doc) : UserJson :=
  mkUserJson (User._id u) (User.name u) (User.username u)
    (Some (User.email u)) None (User.bio u) (User.location u)
    (User.website u) (User.profileImage u) (User.coverImage u)
    (User.followers u) (User.following u)
    (User.createdAt u) (User.updatedAt u).

Definition select_minus_password_email (u : User.doc) : UserJson :=
  mkUserJson (User._id u) (User.name u) (User.username u)
    None None (User.bio u) (User.location u)
    (User.website u) (User.profileImage u) (User.coverImage u)
    (User.followers u) (User.following u)
    (User.createdAt u) (User.updatedAt u).

(** Update documents the user routes send. *)
Inductive array_path : Type := Followers | Following.

(** A value of a JSON request body.  A number is given by whether it is
    zero and by the text [toString] prints for it. *)
#[local] Unset Elimination Schemes.
Inductive JsonValue : Type :=
  | JNull
  | JBool (b : bool)
  | JNumber (is_zero : bool) (text : string)
  | JString (s : string)
  | JArray (elements : list JsonValue)
  | JObject (fields : list (string * JsonValue)).

#[local] Set Elimination Schemes.

(** JavaScript truthiness of a body value. *)
Definition js_truthy (v : JsonValue) : bool :=
  match v with
  | JNull => false
  | JBool b => b
  | JNumber is_zero _ => negb is_zero
  | JString s => negb (String.eqb s "")
  | JArray _ | JObject _ => true
  end.

(** The [_id] of an object, when it is a string. *)
Fixpoint string_id (fields : list (string * JsonValue)) : option string :=
  match fields with
  | [] => None
  | (k, v) :: fields' =>
    if String.eqb k "_id"
    then match v with JString s => Some s | _ => None end
    else string_id fields'
  end.

(** Modelled from the spec: the profile fields are strings.  The cast of
    the persistence layer to a string field: strings as they are, numbers
    and booleans by their text, an object by its string [_id] if it has
    one; arrays and other objects are a [CastError] ([None]).  The cast
    lets null through; no route sends it, and it is [None] here. *)
Definition castString (v : JsonValue) : option string :=
  match v with
  | JString s => Some s
  | JNumber _ text => Some text
  | JBool true => Some "true"
  | JBool false => Some "false"
  | JObject fields => string_id fields
  | JArray _ => None
  | JNull => None
  end.

(** The object [userFields] a profile update builds, and its fields after
    the cast. *)
Record userFields := mkFields {
  f_name : option JsonValue;
  f_bio : option JsonValue;
  f_location : option JsonValue;
  f_website : option JsonValue
}.

Record castFields := mkCastFields {
  c_name : option string;
  c_bio : option string;
  c_location : option string;
  c_website : option string
}.

(** The cast of one field of an update: absent stays absent, present is
    cast; [None] when the cast fails. *)
Definition cast_field (v : option JsonValue) : option (option string) :=
  match v with
  | None => Some None
  | Some x => Some <$> castString x
  end.

Definition cast_fields (fs : userFields) : option castFields :=
  n ← cast_field (f_name fs);
  b ← cast_field (f_bio fs);
  l ← cast_field (f_location fs);
  w ← cast_field (f_website fs);
  Some (mkCastFields n b l w).

Inductive Update : Type :=
  | U_pull (path : array_path) (value : string)
  | U_addToSet (path : array_path) (value : string)
  | U_set (fields : userFields).

Definition on_path (path : array_path) (f : list ObjectId → list ObjectId)
    (u : User.doc) : User.doc :=
  match path with
  | Followers => User.set_followers (f (User.followers u)) u
  | Following => User.set_following (f (User.following u)) u
  end.

Definition set_fields (fs : castFields) (u : User.doc) : User.doc :=
  User.mk (User._id u)
    (default (User.name u) (c_name fs))
    (User.username u) (User.email u) (User.password u)
    (default (User.bio u) (c_bio fs))
    (default (User.location u) (c_location fs))
    (default (User.website u) (c_website fs))
    (User.profileImage u) (User.coverImage u)
    (User.followers u) (User.following u)
    (User.createdAt u) (User.updatedAt u).

(** The update cast against the schema: array values become ObjectIds,
    profile fields strings. *)
Definition cast_update (upd : Update) : db (User.doc → User.doc) :=
  match upd with
  | U_pull path v => oid ← cast v; mret (on_path path (pull oid))
  | U_addToSet path v => oid ← cast v; mret (on_path path (addToSet oid))
  | U_set fs =>
    match cast_fields fs with
    | Some cs => mret (set_fields cs)
    | None => throw CastErrorString
    end
  end.

(** An update applied at clock reading [now]: the schema's timestamps
    rewrite [updatedAt] with every update. *)
Definition touch (now : Z) (f : User.doc → User.doc) (u : User.doc) : User.doc :=
  User.set_updatedAt now (f u).

(** [User.findByIdAndUpdate(id, update, { new: true })] at clock reading
    [now]: the document after the update, or [None] when no user has that
    identifier. *)
Definition User_findByIdAndUpdate (id : string) (upd : Update) (now : Z)
  : db (option User.doc) :=
  oid ← cast id;
  f ← cast_update upd;
  us ← get_users;
  _ ← put_users ((λ u, if decide (User._id u = oid) then touch now f u else u)
                   <$> us);
  mret (touch now f <$> find_user oid us).

(** ** Requests *)

(** Modelled from the spec: the auth middleware is not part of the
    sources.  It resolves the credential to a user identifier and attaches
    that user's stored record (with the follow lists) as [req.user]; a
    request whose user is unknown is answered 401 before the handler
    runs. *)
Definition auth (st : Store) (credential : ObjectId) : option User.doc :=
  find_user credential (users st).

Definition with_auth (credential : ObjectId)
    (handler : User.doc → Store → Store * Response) : Store → Store * Response :=
  λ st, match auth st credential with
        | Some req_user => handler req_user st
        | None => (st, status_json 401 (BMessage "Token is not valid"))
        end.

(** [body('content', 'Content is required').not().isEmpty()]: the field
    fails when it is missing or the empty string. *)
Definition content_errors (content : option string) : list string :=
  match content with
  | None | Some "" => ["Content is required"]
  | Some _ => []
  end.

(** [req.file ? `/uploads/${req.file.filename}` : null]. *)
Definition image_path (file : option string) : option string :=
  (λ filename, "/uploads/" ++ filename) <$> file.

(** ** Tweet routes ([src/routes/tweets.js]) *)

(** POST api/tweets.  [fresh] is the identifier the driver generates for
    the new document and [now] the clock reading stored as [createdAt]. *)
Definition post_tweet (req_user : User.doc) (content : option string)
    (file : option string) (fresh : ObjectId) (now : Z)
  : Store → Store * Response :=
  match content_errors content with
  | (_ :: _) as errors => λ st, (st, status_json 400 (BErrors errors))
  | [] =>
    try_catch
      (let newTweet :=
         Tweet.mk fresh (User.id req_user) (default "" content)
           (image_path file) [] [] None false now in
       tweet ← Tweet_insert newTweet;
       tweet ← populate_user tweet;
       mret (json (BTweet tweet)))
      catch_server_error
  end.

(** [parseInt(s)] with no radix: leading white space, an optional sign,
    an optional [0x] prefix, then the longest run of digits; [None] is
    NaN.  Integers are exact (the source's numbers are doubles, exact up
    to 2^53).  White space is that of JavaScript: the ASCII characters
    and, in their UTF-8 encoding, U+00A0, U+1680, U+2000 to U+200A,
    U+2028, U+2029, U+202F, U+205F, U+3000 and U+FEFF. *)
Definition is_space (c : ascii) : bool :=
  let n := nat_of_ascii c in
  (n =? 32) || ((9 <=? n) && (n <=? 13)).

Definition is_space2 (c1 c2 : ascii) : bool :=
  (nat_of_ascii c1 =? 194) && (nat_of_ascii c2 =? 160).

Definition is_space3 (c1 c2 c3 : ascii) : bool :=
  let a := nat_of_ascii c1 in
  let b := nat_of_ascii c2 in
  let c := nat_of_ascii c3 in
  ((a =? 225) && (b =? 154) && (c =? 128))
  || ((a =? 226) && (b =? 128)
      && (((128 <=? c) && (c <=? 138)) || (c =? 168) || (c =? 169) || (c =? 175)))
  || ((a =? 226) && (b =? 129) && (c =? 159))
  || ((a =? 227) && (b =? 128) && (c =? 128))
  || ((a =? 239) && (b =? 187) && (c =? 191)).

Fixpoint trim_start (s : string) : string :=
  match s with
  | String c1 s1 =>
    if is_space c1 then trim_start s1
    else match s1 with
         | String c2 s2 =>
           if is_space2 c1 c2 then trim_start s2
           else match s2 with
                | String c3 s3 =>
                  if is_space3 c1 c2 c3 then trim_start s3 else s
                | EmptyString => s
                end
         | EmptyString => s
         end
  | EmptyString => EmptyString
  end.

Definition digit_value (radix : Z) (c : ascii) : option Z :=
  let n := Z.of_nat (nat_of_ascii c) in
  let v := if (48 <=? n)%Z && (n <=? 57)%Z then Some (n - 48)%Z
           else if (97 <=? n)%Z && (n <=? 122)%Z then Some (n - 87)%Z
           else if (65 <=? n)%Z && (n <=? 90)%Z then Some (n - 55)%Z
           else None in
  v ≫= λ d, if (d <? radix)%Z then Some d else None.

(** The digits read so far are [acc]; [None] until a digit is seen. *)
Fixpoint parse_digits (radix : Z) (acc : option Z) (s : string) : option Z :=
  match s with
  | String c s' =>
    match digit_value radix c with
    | Some d => parse_digits radix (Some (default 0 acc * radix + d)%Z) s'
    | None => acc
    end
  | EmptyString => acc
  end.

Definition strip_sign (s : string) : Z * string :=
  match s with
  | String "-" s' => ((-1)%Z, s')
  | String "+" s' => (1%Z, s')
  | _ => (1%Z, s)
  end.

Definition strip_hex_prefix (s : string) : Z * string :=
  match s with
  | String "0" (String "x" s') | String "0" (String "X" s') => (16%Z, s')
  | _ => (10%Z, s)
  end.

Definition parseInt (arg : option string) : option Z :=
  let inputString := default "undefined" arg in
  let '(sign, s) := strip_sign (trim_start inputString) in
  let '(radix, s) := strip_hex_prefix s in
  (λ n, sign * n)%Z <$> parse_digits radix None s.

(** [x || 1] on a number: NaN and 0 are falsy. *)
Definition or_one (x : option Z) : Z :=
  match x with
  | Some n => if (n =? 0)%Z then 1%Z else n
  | None => 1%Z
  end.

(** The timeline filter:
    [{ $or: [{ user: { $in: [...following, id] } },
             { retweets: { $in: [id] } }], isReply: false }]. *)
Definition timeline_filter (req_user : User.doc) (t : Tweet.doc) : bool :=
  (bool_decide (Tweet.user t ∈ (User.following req_user ++ [User.id req_user])%list)
   || bool_decide (Exists (λ r, r ∈ [User.id req_user]) (Tweet.retweets t)))
  && negb (Tweet.isReply t).

(** GET api/tweets. *)
Definition get_timeline (req_user : User.doc) (query_page : option string)
  : Store → Store * Response :=
  try_catch
    (let page := or_one (parseInt query_page) in
     let limit_ := 10 in
     let skip_ := ((page - 1) * Z.of_nat limit_)%Z in
     ts ← get_tweets;
     ts ← skip skip_ (sort_newest (filter (λ t, timeline_filter req_user t) ts));
     tweets ← db_map populate_user_parent (limit limit_ ts);
     mret (json (BTweets tweets)))
    catch_server_error.

(** GET api/tweets/:id. *)
Definition get_tweet (id : string) : Store → Store * Response :=
  try_catch
    (tweet ← Tweet_findById id;
     match tweet with
     | None => mret (status_json 404 (BMessage "Tweet not found"))
     | Some tweet =>
       tweet ← populate_user_parent tweet;
       mret (json (BTweet tweet))
     end)
    (catch_not_found "Tweet not found").

(** DELETE api/tweets/:id. *)
Definition delete_tweet (req_user : User.doc) (id : string)
  : Store → Store * Response :=
  try_catch
    (tweet ← Tweet_findById id;
     match tweet with
     | None => mret (status_json 404 (BMessage "Tweet not found"))
     | Some tweet =>
       if decide (Tweet.user tweet ≠ User.id req_user)
       then mret (status_json 401 (BMessage "User not authorized"))
       else
         _ ← Tweet_deleteOne tweet;
         mret (json (BMessage "Tweet removed"))
     end)
    (catch_not_found "Tweet not found").

(** POST api/tweets/:id/like. *)
Definition post_like (req_user : User.doc) (id : string)
  : Store → Store * Response :=
  try_catch
    (tweet ← Tweet_findById id;
     match tweet with
     | None => mret (status_json 404 (BMessage "Tweet not found"))
     | Some tweet =>
       let isLiked := includes (Tweet.likes tweet) (User.id req_user) in
       let tweet :=
         if isLiked
         then Tweet.set_likes
                (filter (λ like, like ≠ User.id req_user) (Tweet.likes tweet)) tweet
         else Tweet.set_likes (unshift (User.id req_user) (Tweet.likes tweet)) tweet in
       _ ← Tweet_save tweet;
       mret (json (BToggle "isLiked" (negb isLiked) (User.id req_user)))
     end)
    (catch_not_found "Tweet not found").

(** POST api/tweets/:id/retweet. *)
Definition post_retweet (req_user : User.doc) (id : string)
  : Store → Store * Response :=
  try_catch
    (tweet ← Tweet_findById id;
     match tweet with
     | None => mret (status_json 404 (BMessage "Tweet not found"))
     | Some tweet =>
       let isRetweeted := includes (Tweet.retweets tweet) (User.id req_user) in
       let tweet :=
         if isRetweeted
         then Tweet.set_retweets
                (filter (λ retweet, retweet ≠ User.id req_user) (Tweet.retweets tweet))
                tweet
         else Tweet.set_retweets
                (unshift (User.id req_user) (Tweet.retweets tweet)) tweet in
       _ ← Tweet_save tweet;
       mret (json (BToggle "isRetweeted" (negb isRetweeted) (User.id req_user)))
     end)
    (catch_not_found "Tweet not found").

(** POST api/tweets/:id/reply.  The schema casts [parent: req.params.id]
    to an ObjectId. *)
Definition post_reply (req_user : User.doc) (id : string)
    (content : option string) (file : option string) (fresh : ObjectId) (now : Z)
  : Store → Store * Response :=
  match content_errors content with
  | (_ :: _) as errors => λ st, (st, status_json 400 (BErrors errors))
  | [] =>
    try_catch
      (parentTweet ← Tweet_findById id;
       match parentTweet with
       | None => mret (status_json 404 (BMessage "Tweet not found"))
       | Some _ =>
         let newReply :=
           Tweet.mk fresh (User.id req_user) (default "" content)
             (image_path file) [] [] (castObjectId id) true now in
         reply ← Tweet_insert newReply;
         reply ← populate_user reply;
         mret (json (BTweet reply))
       end)
      (catch_not_found "Tweet not found")
  end.

(** GET api/tweets/:id/replies: [{ parent: id, isReply: true }]. *)
Definition get_replies (id : string) : Store → Store * Response :=
  try_catch
    (pid ← cast id;
     ts ← get_tweets;
     let found := filter (λ t, Tweet.parent t = Some pid ∧ Tweet.isReply t = true) ts in
     replies ← db_map populate_user (sort_newest found);
     mret (json (BTweets replies)))
    (catch_not_found "Tweet not found").

(** GET api/tweets/user/:userId: [{ user: userId, isReply: false }]. *)
Definition get_user_tweets (userId : string) : Store → Store * Response :=
  try_catch
    (uid ← cast userId;
     ts ← get_tweets;
     let found := filter (λ t, Tweet.user t = uid ∧ Tweet.isReply t = false) ts in
     tweets ← db_map populate_user (sort_newest found);
     mret (json (BTweets tweets)))
    (catch_not_found "User not found").

(** ** User routes ([src/routes/users.js]) *)

(** [if (field) userFields.field = field]: a field of the body is taken
    when it is present and truthy (for a string: not empty). *)
Definition truthy (v : option JsonValue) : option JsonValue :=
  match v with
  | Some x => if js_truthy x then Some x else None
  | None => None
  end.

(** PUT api/users/me, at clock reading [now].  The body is the parsed
    JSON object of the request. *)
Definition put_users_me (req_user : User.doc) (req_body : gmap string JsonValue)
    (now : Z) : Store → Store * Response :=
  let name := req_body !! "name" in
  let bio := req_body !! "bio" in
  let location := req_body !! "location" in
  let website := req_body !! "website" in
  let userFields :=
    mkFields (truthy name) (truthy bio) (truthy location) (truthy website) in
  try_catch
    (user ← User_findByIdAndUpdate (User.id req_user) (U_set userFields) now;
     mret (json (BUser (select_minus_password <$> user))))
    catch_server_error.

(** POST api/users/:id/follow.  Each of the two updates reads the clock:
    [now1] is the reading of the first, [now2] of the second. *)
Definition post_follow (req_user : User.doc) (id : string) (now1 now2 : Z)
  : Store → Store * Response :=
  try_catch
    (if decide (id = User.id req_user)
     then mret (status_json 400 (BMessage "You cannot follow yourself"))
     else
       userToFollow ← User_findById id;
       match userToFollow with
       | None => mret (status_json 404 (BMessage "User not found"))
       | Some _ =>
         let isFollowing := includes (User.following req_user) id in
         if isFollowing then
           _ ← User_findByIdAndUpdate (User.id req_user) (U_pull Following id)
                 now1;
           _ ← User_findByIdAndUpdate id (U_pull Followers (User.id req_user))
                 now2;
           mret (json (BToggle "isFollowing" false (User.id req_user)))
         else
           _ ← User_findByIdAndUpdate (User.id req_user) (U_addToSet Following id)
                 now1;
           _ ← User_findByIdAndUpdate id (U_addToSet Followers (User.id req_user))
                 now2;
           mret (json (BToggle "isFollowing" true (User.id req_user)))
       end)
    catch_server_error.

(** ** Search route *)

(** The store's regular-expression engine ([$regex] with [$options: 'i'])
    on the patterns this development covers: a sequence of literal
    characters and dots.  A pattern that opens with a quantifier is
    rejected by the engine; a pattern using any other operator is outside
    the model. *)
Inductive atom : Type :=
  | Lit (c : ascii)
  | AnyChar.

Inductive regex_outcome : Type :=
  | Compiled (re : list atom)
  | Invalid
  | Unmodelled.

Definition is_meta (c : ascii) : bool :=
  bool_decide (c ∈ list_ascii_of_string "\^$.|?*+()[]{}").

Definition is_quantifier (c : ascii) : bool :=
  bool_decide (c ∈ list_ascii_of_string "*+?").

Fixpoint compile_atoms (s : string) : option (list atom) :=
  match s with
  | EmptyString => Some []
  | String c s' =>
    if Ascii.eqb c "." then cons AnyChar <$> compile_atoms s'
    else if is_meta c then None
    else cons (Lit c) <$> compile_atoms s'
  end.

Definition regex_compile (q : string) : regex_outcome :=
  match q with
  | String c _ =>
    if is_quantifier c then Invalid
    else match compile_atoms q with
         | Some re => Compiled re
         | None => Unmodelled
         end
  | EmptyString => Compiled []
  end.

(** One atom against one character, ignoring case; the dot matches
    every character but the line feed. *)
Definition atom_matches (a : atom) (c : ascii) : bool :=
  match a with
  | Lit l => Ascii.eqb (lower_ascii l) (lower_ascii c)
  | AnyChar => negb (Ascii.eqb c "010")
  end.

Fixpoint match_here (re : list atom) (s : string) : bool :=
  match re, s with
  | [], _ => true
  | a :: re', String c s' => atom_matches a c && match_here re' s'
  | _ :: _, EmptyString => false
  end.

(** Unanchored search: the pattern matches at some position. *)
Fixpoint regex_test (re : list atom) (s : string) : bool :=
  match_here re s
  || match s with
     | String _ s' => regex_test re s'
     | EmptyString => false
     end.

(** GET api/search.  [None] only for a query outside the modelled
    patterns. *)
Definition get_search (q : option string) (st : Store)
  : option (Store * Response) :=
  match q with
  | None | Some "" =>
    Some (st, status_json 400 (BMessage "Search query is required"))
  | Some q =>
    match regex_compile q with
    | Unmodelled => None
    | Invalid =>
      Some (try_catch (throw MongoServerError) catch_server_error st)
    | Compiled re =>
      Some (try_catch
        (us ← get_users;
         let found :=
           filter (λ u, regex_test re (User.name u) || regex_test re (User.username u))
                  us in
         let users := select_minus_password_email <$> limit 10 found in
         ts ← get_tweets;
         let found := filter (λ t, regex_test re (Tweet.content t)) ts in
         tweets ← db_map populate_user (limit 20 (sort_newest found));
         mret (json (BSearch users tweets)))
        catch_server_error st)
    end
  end.

(** ** Vocabulary of the statements *)

(** The likes and retweets lists of the tweet with identifier [oid], if
    it is stored. *)
Definition likes_of (oid : ObjectId) (st : Store) : option (list ObjectId) :=
  Tweet.likes <$> find_tweet oid (tweets st).

Definition retweets_of (oid : ObjectId) (st : Store) : option (list ObjectId) :=
  Tweet.retweets <$> find_tweet oid (tweets st).

(** A toggle of [u] in a list: removed when present, put at the front
    when absent. *)
Definition toggled (u : ObjectId) (l : list ObjectId) : list ObjectId :=
  if decide (u ∈ l) then filter (λ y, y ≠ u) l else u :: l.

(** Exchange of the roles of the likes and retweets lists, on a tweet, on
    the store and on the key of the toggle response. *)
Definition swap_lists (t : Tweet.doc) : Tweet.doc :=
  Tweet.mk (Tweet._id t) (Tweet.user t) (Tweet.content t) (Tweet.image t)
    (Tweet.retweets t) (Tweet.likes t)
    (Tweet.parent t) (Tweet.isReply t) (Tweet.createdAt t).

Definition swap_store (st : Store) : Store :=
  set_tweets (swap_lists <$> tweets st) st.

Definition swap_key (k : string) : string :=
  if decide (k = "isLiked") then "isRetweeted"
  else if decide (k = "isRetweeted") then "isLiked" else k.

Definition swap_response (r : Response) : Response :=
  match body r with
  | BToggle k flag u => mkResponse (status r) (BToggle (swap_key k) flag u)
  | _ => r
  end.

(** The reply invariant of the data model: a tweet has a parent exactly
    when its reply flag is set. *)
Definition parent_iff_isReply (t : Tweet.doc) : Prop :=
  is_Some (Tweet.parent t) ↔ Tweet.isReply t = true.

(** The follow lists of the user with identifier [oid], if stored. *)
Definition following_of (oid : ObjectId) (st : Store) : option (list ObjectId) :=
  User.following <$> find_user oid (users st).

Definition followers_of (oid : ObjectId) (st : Store) : option (list ObjectId) :=
  User.followers <$> find_user oid (users st).

(** An authenticated caller: [req.user] is the stored record of a user
    whose identifier is well formed. *)
Definition authenticated (st : Store) (req_user : User.doc) : Prop :=
  is_id_text (User.id req_user) ∧ auth st (User.id req_user) = Some req_user.

(** The timeline's eligible tweets, in the words of the spec: not a
    reply, and authored by the caller, authored by a user the caller
    follows, or retweeted by the caller. *)
Definition eligible (req_user : User.doc) (t : Tweet.doc) : Prop :=
  Tweet.isReply t = false
  ∧ (Tweet.user t = User.id req_user
     ∨ Tweet.user t ∈ User.following req_user
     ∨ User.id req_user ∈ Tweet.retweets t).

Global Instance eligible_dec req_user t : Decision (eligible req_user t).
Proof. unfold eligible. apply _. Defined.

Global Instance newer_total : Total newer.
Proof. intros a b. unfold newer. lia. Qed.

Global Instance newer_trans : Transitive newer.
Proof. intros a b c. unfold newer. lia. Qed.

(** A page parameter with no number to read: after the leading white
    space and an optional sign, the text is empty or does not start with a
    decimal digit. *)
Definition is_decimal_digit (c : ascii) : bool :=
  let n := nat_of_ascii c in (48 <=? n) && (n <=? 57).

Definition non_numeric (s : string) : Prop :=
  match (strip_sign (trim_start s)).2 with
  | String c _ => is_decimal_digit c = false
  | EmptyString => True
  end.

(** Modelled from the spec: a numeric page parameter in the plain sense,
    a non-empty text of decimal digits only. *)
Definition is_number_text (s : string) : bool :=
  negb (String.eqb s "") && string_forallb is_decimal_digit s.

(** Case-insensitive substring containment, in the words of the spec
    ([ci_contains]) and as a test ([ci_includes], the analogue of
    [s.toLowerCase().includes(q.toLowerCase())]). *)
Definition ci_contains (q s : string) : Prop :=
  ∃ pre suf, toLowerCase s = pre ++ toLowerCase q ++ suf.

Fixpoint starts_with (p s : string) : bool :=
  match p, s with
  | EmptyString, _ => true
  | String a p', String b s' => Ascii.eqb a b && starts_with p' s'
  | String _ _, EmptyString => false
  end.

Fixpoint string_includes (p s : string) : bool :=
  starts_with p s
  || match s with
     | String _ s' => string_includes p s'
     | EmptyString => false
     end.

Definition ci_includes (q s : string) : bool :=
  string_includes (toLowerCase q) (toLowerCase s).

(** A query free of regular-expression operators. *)
Definition no_meta (q : string) : Prop :=
  string_forallb (λ c, negb (is_meta c)) q = true.

(** The pattern made of the characters of [q], each a literal. *)
Fixpoint literals (q : string) : list atom :=
  match q with
  | EmptyString => []
  | String c q' => Lit c :: literals q'
  end.

(** A request body whose recognised fields, where present and truthy,
    the schema can cast to strings. *)
Definition castable (req_body : gmap string JsonValue) : Prop :=
  ∀ k v, k ∈ ["name"; "bio"; "location"; "website"] →
         req_body !! k = Some v → js_truthy v = true → is_Some (castString v).

(** ** A small store for the examples *)

Definition alice_id : ObjectId := "aaaaaaaaaaaaaaaaaaaaaaaa".
Definition bob_id : ObjectId := "bbbbbbbbbbbbbbbbbbbbbbbb".
Definition carol_id : ObjectId := "cccccccccccccccccccccccc".

Definition alice : User.doc :=
  User.mk alice_id "Alice" "alice" "alice@example.org" "hash-a" "" "" "" "" ""
    [] [bob_id] 10 10.
Definition bob : User.doc :=
  User.mk bob_id "Bob" "bob" "bob@example.org" "hash-b" "" "" "" "" ""
    [alice_id] [] 20 20.
Definition carol : User.doc :=
  User.mk carol_id "Carol" "carol" "carol@example.org" "hash-c" "" "" "" "" ""
    [] [] 30 30.

Definition tweet1_id : ObjectId := "111111111111111111111111".
Definition tweet2_id : ObjectId := "222222222222222222222222".
Definition tweet3_id : ObjectId := "333333333333333333333333".

Definition tweet1 : Tweet.doc :=
  Tweet.mk tweet1_id bob_id "hello world" None [] [] None false 100.
Definition tweet2 : Tweet.doc :=
  Tweet.mk tweet2_id alice_id "Re: hello" None [] [] (Some tweet1_id) true 200.
Definition tweet3 : Tweet.doc :=
  Tweet.mk tweet3_id carol_id "lunch" None [bob_id] [alice_id] None false 300.

Definition demo : Store := mkStore [alice; bob; carol] [tweet1; tweet2; tweet3].

(** ** Further user routes ([src/routes/users.js]) *)

(** [User.findOne({ username })]: the first user, in store order, with
    that username. *)
Definition User_findOne_username (username : string) : db (option User.doc) :=
  us ← get_users;
  mret (List.find (λ u, bool_decide (User.username u = username)) us).

(** GET api/users/:username. *)
Definition get_user_by_username (username : string) : Store → Store * Response :=
  try_catch
    (user ← User_findOne_username username;
     match user with
     | None => mret (status_json 404 (BMessage "User not found"))
     | Some user => mret (json (BUser (Some (select_minus_password_email user))))
     end)
    catch_server_error.

(** The update documents [{ profileImage: path }] and
    [{ coverImage: path }]. *)
Inductive image_field : Type := ProfileImage | CoverImage.

Definition set_image (field : image_field) (path : string) (u : User.doc)
  : User.doc :=
  match field with
  | ProfileImage =>
    User.mk (User._id u) (User.name u) (User.username u) (User.email u)
      (User.password u) (User.bio u) (User.location u) (User.website u)
      path (User.coverImage u) (User.followers u) (User.following u)
      (User.createdAt u) (User.updatedAt u)
  | CoverImage =>
    User.mk (User._id u) (User.name u) (User.username u) (User.email u)
      (User.password u) (User.bio u) (User.location u) (User.website u)
      (User.profileImage u) path (User.followers u) (User.following u)
      (User.createdAt u) (User.updatedAt u)
  end.

(** [User.findByIdAndUpdate(id, { field: path }, { new: true })] at
    clock reading [now]. *)
Definition User_findByIdAndUpdate_image (id : string) (field : image_field)
    (path : string) (now : Z) : db (option User.doc) :=
  oid ← cast id;
  us ← get_users;
  _ ← put_users ((λ u, if decide (User._id u = oid)
                       then touch now (set_image field path) u else u) <$> us);
  mret (touch now (set_image field path) <$> find_user oid us).

(** PUT api/users/me/profile-image, at clock reading [now]. *)
Definition put_profile_image (req_user : User.doc) (file : option string)
    (now : Z) : Store → Store * Response :=
  try_catch
    (match file with
     | None => mret (status_json 400 (BMessage "No file uploaded"))
     | Some filename =>
       user ← User_findByIdAndUpdate_image (User.id req_user) ProfileImage
                ("/uploads/" ++ filename) now;
       mret (json (BUser (select_minus_password <$> user)))
     end)
    catch_server_error.

(** PUT api/users/me/cover-image, at clock reading [now]. *)
Definition put_cover_image (req_user : User.doc) (file : option string)
    (now : Z) : Store → Store * Response :=
  try_catch
    (match file with
     | None => mret (status_json 400 (BMessage "No file uploaded"))
     | Some filename =>
       user ← User_findByIdAndUpdate_image (User.id req_user) CoverImage
                ("/uploads/" ++ filename) now;
       mret (json (BUser (select_minus_password <$> user)))
     end)
    catch_server_error.

(** GET api/users/suggestions:
    [User.find({ _id: { $nin: [...following, id] } })
       .select('-password -email').limit(5)].
    The answer is the JSON array of users, or the response of the catch
    clause. *)
Definition get_suggestions (req_user : User.doc)
  : Store → Store * (list UserJson + Response) :=
  λ st,
    match (us ← get_users;
           let excluded := (User.following req_user ++ [User.id req_user])%list in
           let found := filter (λ u, User._id u ∉ excluded) us in
           mret (select_minus_password_email <$> limit 5 found)) st with
    | (st', Ok users) => (st', inl users)
    | (st', Throw err) => (st', inr (catch_server_error err))
    end.

(** ** The route tables *)

(** A router tries its routes in the order of their registration; the
    first route whose method and path pattern match handles the request
    (no handler of these files passes the request on).  A path is its list
    of non-empty segments; a static segment of a pattern matches without
    regard to case, a parameter matches any segment. *)
Inductive method : Type := GET | POST | PUT | DELETE.

Inductive segment : Type :=
  | Static (s : string)
  | Param.

Global Instance method_eq_dec : EqDecision method.
Proof. solve_decision. Defined.

(** The parameters captured by a pattern, in order; [None] when the path
    does not match. *)
Fixpoint match_path (pattern : list segment) (path : list string)
  : option (list string) :=
  match pattern, path with
  | [], [] => Some []
  | Static s :: pattern', seg :: path' =>
    if String.eqb (toLowerCase s) (toLowerCase seg)
    then match_path pattern' path' else None
  | Param :: pattern', seg :: path' => cons seg <$> match_path pattern' path'
  | _, _ => None
  end.

(** The handlers of [users.js], with their path parameters. *)
Inductive users_endpoint : Type :=
  | GetMe
  | GetByUsername (username : string)
  | PutMe
  | PutProfileImage
  | PutCoverImage
  | PostFollow (id : string)
  | GetSuggestions.

(** The handlers of [tweets.js], with their path parameters. *)
Inductive tweets_endpoint : Type :=
  | PostTweet
  | GetTimeline
  | GetTweet (id : string)
  | DeleteTweet (id : string)
  | PostLike (id : string)
  | PostRetweet (id : string)
  | PostReply (id : string)
  | GetReplies (id : string)
  | GetUserTweets (userId : string).

(** A route: method, pattern, and the handler applied to the captured
    parameters. *)
Definition route (E : Type) : Type := method * list segment * (list string → E).

Fixpoint dispatch {E} (routes : list (route E)) (m : method) (path : list string)
  : option E :=
  match routes with
  | [] => None
  | (m', pattern, handler) :: routes' =>
    if decide (m' = m) then
      match match_path pattern path with
      | Some params => Some (handler params)
      | None => dispatch routes' m path
      end
    else dispatch routes' m path
  end.

Definition param1 (params : list string) : string := default "" (head params).

(** The routes of [users.js], in the order of the file. *)
Definition users_routes : list (route users_endpoint) :=
  [ (GET, [Static "me"], λ _, GetMe);
    (GET, [Param], λ ps, GetByUsername (param1 ps));
    (PUT, [Static "me"], λ _, PutMe);
    (PUT, [Static "me"; Static "profile-image"], λ _, PutProfileImage);
    (PUT, [Static "me"; Static "cover-image"], λ _, PutCoverImage);
    (POST, [Param; Static "follow"], λ ps, PostFollow (param1 ps));
    (GET, [Static "suggestions"], λ _, GetSuggestions) ].

(** The routes of [tweets.js], in the order of the file. *)
Definition tweets_routes : list (route tweets_endpoint) :=
  [ (POST, [], λ _, PostTweet);
    (GET, [], λ _, GetTimeline);
    (GET, [Param], λ ps, GetTweet (param1 ps));
    (DELETE, [Param], λ ps, DeleteTweet (param1 ps));
    (POST, [Param; Static "like"], λ ps, PostLike (param1 ps));
    (POST, [Param; Static "retweet"], λ ps, PostRetweet (param1 ps));
    (POST, [Param; Static "reply"], λ ps, PostReply (param1 ps));
    (GET, [Param; Static "replies"], λ ps, GetReplies (param1 ps));
    (GET, [Static "user"; Param], λ ps, GetUserTweets (param1 ps)) ].

(** ** Vocabulary of the further statements *)

(** The follow relation is stored twice; it is consistent for the pair
    [(a, b)] when [b] is in [a]'s following list exactly when [a] is in
    [b]'s followers list. *)
Definition follow_consistent (st : Store) (a b : ObjectId) : Prop :=
  ∀ ua ub, find_user a (users st) = Some ua → find_user b (users st) = Some ub →
           (b ∈ User.following ua ↔ a ∈ User.followers ub).

(** No stored user follows themselves. *)
Definition no_self_follow (st : Store) : Prop :=
  ∀ u, u ∈ users st → User._id u ∉ User.following u.

(** The store after the two updates of the follow route by caller [c] on
    target [id], the first at clock reading [now1] and the second at
    [now2]: [f] is applied to the caller's following list, [g] to the
    target's followers list. *)
Definition toggle_follow_store (c id : ObjectId)
    (f g : list ObjectId → list ObjectId) (now1 now2 : Z) (st : Store) : Store :=
  set_users
    ((λ u, if decide (User._id u = id)
           then touch now2 (on_path Followers g) u else u)
       <$> ((λ u, if decide (User._id u = c)
                  then touch now1 (on_path Following f) u else u)
              <$> users st)) st.

(** The users a response carries. *)
Definition users_of_response (r : Response) : list UserJson :=
  match body r with
  | BUser (Some u) => [u]
  | BSearch us _ => us
  | _ => []
  end.

(** The documents of a list of serialised tweets. *)
Definition docs (tjs : list TweetJson) : list Tweet.doc := tj_doc <$> tjs.

(** The tweets a response carries, when its body is a list of tweets. *)
Definition tweets_of_response (r : Response) : option (list Tweet.doc) :=
  match body r with
  | BTweets tjs => Some (docs tjs)
  | _ => None
  end.

(** * Properties *)

(** ** The store *)

Ltac run_db :=
  unfold try_catch, Tweet_findById, User_findById, Tweet_save, Tweet_insert,
    Tweet_deleteOne, User_findByIdAndUpdate, cast_update, cast, throw,
    get_users, get_tweets, put_users, put_tweets, populate_user,
    populate_user_parent, skip, mbind, db_bind, mret, db_ret;
  simpl.

Lemma utf16_units_le after_four s : utf16_units after_four s ≤ String.length s.
Proof.
  revert after_four. induction s as [|c s IH]; intros after_four; simpl; [done|].
  destruct (is_continuation c).
  - specialize (IH false). destruct after_four; simpl; lia.
  - specialize (IH (opens_four_bytes c)). lia.
Qed.

(** The length JavaScript sees is at most the number of bytes. *)
Lemma utf16_length_le s : utf16_length s ≤ String.length s.
Proof. apply utf16_units_le. Qed.

Lemma find_tweet_Some oid ts t :
  find_tweet oid ts = Some t → Tweet._id t = oid ∧ t ∈ ts.
Proof.
  unfold find_tweet. intros H. apply find_some in H. destruct H as [Hin Hid].
  apply bool_decide_eq_true in Hid. split; [done | by apply list_elem_of_In].
Qed.

Lemma find_tweet_None oid ts :
  find_tweet oid ts = None ↔ ∀ t, t ∈ ts → Tweet._id t ≠ oid.
Proof.
  unfold find_tweet. split.
  - intros H t Hin Hid. apply list_elem_of_In in Hin.
    pose proof (find_none _ _ H t Hin) as Hf. simpl in Hf.
    apply bool_decide_eq_false in Hf. done.
  - intros H. induction ts as [|t0 ts IH]; [done|]. simpl.
    rewrite bool_decide_eq_false_2; [|apply H; left].
    apply IH. intros t Hin. apply H. by right.
Qed.

Lemma find_user_Some oid us u :
  find_user oid us = Some u → User._id u = oid ∧ u ∈ us.
Proof.
  unfold find_user. intros H. apply find_some in H. destruct H as [Hin Hid].
  apply bool_decide_eq_true in Hid. split; [done | by apply list_elem_of_In].
Qed.

(** Reading back a saved document. *)
Lemma find_tweet_save oid ts t t' :
  find_tweet oid ts = Some t → Tweet._id t' = oid →
  find_tweet oid ((λ t0, if decide (Tweet._id t0 = Tweet._id t') then t' else t0) <$> ts)
  = Some t'.
Proof.
  intros Hf Hid. induction ts as [|t0 ts IH]; [done|].
  simpl in *. destruct (decide (Tweet._id t0 = Tweet._id t')) as [e|n].
  - rewrite bool_decide_eq_true_2; done.
  - rewrite bool_decide_eq_false_2 in Hf by congruence.
    rewrite bool_decide_eq_false_2 by congruence. auto.
Qed.

(** A save leaves every document with another identifier as it was. *)
Lemma find_tweet_save_ne oid ts t' :
  Tweet._id t' ≠ oid →
  find_tweet oid ((λ t0, if decide (Tweet._id t0 = Tweet._id t') then t' else t0) <$> ts)
  = find_tweet oid ts.
Proof.
  intros Hne. induction ts as [|t0 ts IH]; [done|].
  simpl. destruct (decide (Tweet._id t0 = Tweet._id t')) as [e|n].
  - rewrite !bool_decide_eq_false_2 by congruence. done.
  - destruct (bool_decide (Tweet._id t0 = oid)); done.
Qed.

Lemma filter_ne_not_elem (x : string) (l : list string) :
  x ∉ l → filter (λ y, y ≠ x) l = l.
Proof.
  intros H. induction l as [|y l IH]; [done|].
  apply not_elem_of_cons in H as [Hne Hl].
  rewrite filter_cons_True by done. by rewrite IH.
Qed.

Lemma not_elem_filter_ne (x : string) (l : list string) :
  x ∉ filter (λ y, y ≠ x) l.
Proof. intros [Hne _]%list_elem_of_filter. done. Qed.

(** ** Like *)

Lemma post_like_run me id oid t st :
  castObjectId id = Some oid →
  find_tweet oid (tweets st) = Some t →
  post_like me id st =
    (set_tweets
       ((λ t0, if decide (Tweet._id t0 = oid)
               then Tweet.set_likes (toggled (User.id me) (Tweet.likes t)) t
               else t0) <$> tweets st) st,
     json (BToggle "isLiked" (bool_decide (User.id me ∉ Tweet.likes t)) (User.id me))).
Proof.
  intros Hc Hf. unfold post_like. run_db. rewrite Hc. simpl. rewrite Hf.
  apply find_tweet_Some in Hf as [Hid _].
  unfold includes, toggled, unshift.
  destruct (decide (User.id me ∈ Tweet.likes t)) as [Hin|Hnin].
  - rewrite bool_decide_eq_true_2 by done. simpl. rewrite Hid.
    rewrite bool_decide_eq_false_2 by tauto. done.
  - rewrite bool_decide_eq_false_2 by done. simpl. rewrite Hid.
    rewrite bool_decide_eq_true_2 by done. done.
Qed.

(** C1.  For an authenticated user and an existing tweet, the like route
    answers 200 with the new membership state and the caller's identifier;
    the stored likes list has the caller inserted at the front when absent
    and removed when present; membership after the call is the negation of
    membership before; and from a state where the caller has not liked the
    tweet, two calls restore the likes list while one call does not leave
    it fixed under a second call. *)
Theorem like_toggles_membership me id oid t st :
  castObjectId id = Some oid →
  find_tweet oid (tweets st) = Some t →
  let u := User.id me in
  let st1 := (post_like me id st).1 in
  let st2 := (post_like me id st1).1 in
  (post_like me id st).2
    = json (BToggle "isLiked" (bool_decide (u ∉ Tweet.likes t)) u)
  ∧ (u ∉ Tweet.likes t → likes_of oid st1 = Some (u :: Tweet.likes t))
  ∧ (u ∈ Tweet.likes t →
     likes_of oid st1 = Some (filter (λ y, y ≠ u) (Tweet.likes t)))
  ∧ (∀ l, likes_of oid st1 = Some l → (u ∈ l ↔ u ∉ Tweet.likes t))
  ∧ (u ∉ Tweet.likes t →
     likes_of oid st2 = likes_of oid st ∧ likes_of oid st2 ≠ likes_of oid st1).
Proof.
  intros Hc Hf u st1 st2.
  pose proof (find_tweet_Some _ _ _ Hf) as [Hid _].
  set (t1 := Tweet.set_likes (toggled u (Tweet.likes t)) t).
  assert (Hst1 : st1 = set_tweets
            ((λ t0, if decide (Tweet._id t0 = Tweet._id t1) then t1 else t0)
               <$> tweets st) st).
  { unfold st1. rewrite (post_like_run me id oid t st Hc Hf). simpl.
    subst t1. simpl. rewrite Hid. done. }
  assert (Hf1 : find_tweet oid (tweets st1) = Some t1).
  { rewrite Hst1. simpl. by apply (find_tweet_save oid (tweets st) t t1 Hf). }
  assert (Hl1 : likes_of oid st1 = Some (toggled u (Tweet.likes t))).
  { unfold likes_of. rewrite Hf1. done. }
  split; [by rewrite (post_like_run me id oid t st Hc Hf)|].
  split; [intros Hn; rewrite Hl1; unfold toggled; by rewrite decide_False|].
  split; [intros Hn; rewrite Hl1; unfold toggled; by rewrite decide_True|].
  split.
  { intros l. rewrite Hl1. intros [= <-]. unfold toggled.
    destruct (decide (u ∈ Tweet.likes t)) as [Hin|Hnin].
    - split; [intros H; by apply not_elem_filter_ne in H|tauto].
    - split; [done|intros _; left]. }
  intros Hnin.
  assert (Hl2 : likes_of oid st2 = Some (toggled u (toggled u (Tweet.likes t)))).
  { unfold st2. rewrite (post_like_run me id oid t1 st1 Hc Hf1). simpl.
    unfold likes_of. simpl.
    pose proof (find_tweet_save oid (tweets st1) t1
                  (Tweet.set_likes (toggled u (Tweet.likes t1)) t1) Hf1 Hid) as Hs.
    simpl in Hs. rewrite Hid in Hs. fold u. rewrite Hs. done. }
  assert (Ht : toggled u (Tweet.likes t) = u :: Tweet.likes t)
    by (unfold toggled; by rewrite decide_False).
  assert (Htt : toggled u (u :: Tweet.likes t) = Tweet.likes t).
  { unfold toggled. rewrite decide_True by left.
    rewrite filter_cons_False by naive_solver. by apply filter_ne_not_elem. }
  rewrite Hl2, Hl1, Ht, Htt. unfold likes_of. rewrite Hf. simpl.
  split; [done|]. intros [= H].
  apply (f_equal length) in H. simpl in H. lia.
Qed.

Lemma like_toggles_membership_witness :
  (post_like alice tweet1_id demo).2
    = json (BToggle "isLiked" true alice_id)
  ∧ likes_of tweet1_id (post_like alice tweet1_id demo).1 = Some [alice_id].
Proof.
  pose proof (like_toggles_membership alice tweet1_id tweet1_id tweet1 demo
                eq_refl eq_refl) as (Hr & Hins & _).
  split; [exact Hr | apply Hins; apply not_elem_of_nil].
Defined.

(** ** Retweet *)

Lemma swap_lists_involutive t : swap_lists (swap_lists t) = t.
Proof. by destruct t. Qed.

Lemma swap_store_involutive st : swap_store (swap_store st) = st.
Proof.
  destruct st as [us ts]. unfold swap_store, set_tweets. simpl. f_equal.
  rewrite <- list_fmap_compose. rewrite <- (list_fmap_id ts) at 2.
  apply list_fmap_ext. intros _ t _. apply swap_lists_involutive.
Qed.

Lemma find_tweet_swap oid ts :
  find_tweet oid (swap_lists <$> ts) = swap_lists <$> find_tweet oid ts.
Proof.
  induction ts as [|t ts IH]; [done|]. simpl.
  destruct (bool_decide (Tweet._id t = oid)); done.
Qed.

Lemma post_retweet_run me id oid t st :
  castObjectId id = Some oid →
  find_tweet oid (tweets st) = Some t →
  post_retweet me id st =
    (set_tweets
       ((λ t0, if decide (Tweet._id t0 = oid)
               then Tweet.set_retweets (toggled (User.id me) (Tweet.retweets t)) t
               else t0) <$> tweets st) st,
     json (BToggle "isRetweeted" (bool_decide (User.id me ∉ Tweet.retweets t))
             (User.id me))).
Proof.
  intros Hc Hf. unfold post_retweet. run_db. rewrite Hc. simpl. rewrite Hf.
  apply find_tweet_Some in Hf as [Hid _].
  unfold includes, toggled, unshift.
  destruct (decide (User.id me ∈ Tweet.retweets t)) as [Hin|Hnin].
  - rewrite bool_decide_eq_true_2 by done. simpl. rewrite Hid.
    rewrite bool_decide_eq_false_2 by tauto. done.
  - rewrite bool_decide_eq_false_2 by done. simpl. rewrite Hid.
    rewrite bool_decide_eq_true_2 by done. done.
Qed.

Lemma find_tweet_replace oid k t' ts :
  Tweet._id t' = k →
  find_tweet oid ((λ t0, if decide (Tweet._id t0 = k) then t' else t0) <$> ts)
  = (λ t0, if decide (Tweet._id t0 = k) then t' else t0) <$> find_tweet oid ts.
Proof.
  intros Hk. induction ts as [|t0 ts IH]; [done|]. simpl.
  destruct (decide (Tweet._id t0 = k)) as [e|n].
  - replace (Tweet._id t') with (Tweet._id t0) by congruence.
    destruct (bool_decide (Tweet._id t0 = oid)); simpl; [|exact IH].
    by rewrite decide_True.
  - destruct (bool_decide (Tweet._id t0 = oid)); simpl; [|exact IH].
    by rewrite decide_False.
Qed.

(** C9.  The retweet route is the like route with the retweets list in
    the place of the likes list.  On every caller, path identifier and
    store, running the like route on the store with the two lists
    exchanged and exchanging them back (and the response key [isLiked]
    for [isRetweeted]) gives the store and the response of the retweet
    route.  And on an existing tweet the route performs the toggle of the
    like route on the retweets list: it answers 200 with [isRetweeted],
    the new membership state, and the caller's identifier; the stored
    retweets list has the caller inserted at the front when absent and
    removed when present; membership after the call is the negation of
    membership before; the likes list is as it was. *)
Theorem retweet_is_like_on_retweets me id st :
  post_retweet me id st =
    (swap_store (post_like me id (swap_store st)).1,
     swap_response (post_like me id (swap_store st)).2)
  ∧ ∀ oid t,
      castObjectId id = Some oid →
      find_tweet oid (tweets st) = Some t →
      let u := User.id me in
      let st1 := (post_retweet me id st).1 in
      (post_retweet me id st).2
        = json (BToggle "isRetweeted" (bool_decide (u ∉ Tweet.retweets t)) u)
      ∧ (u ∉ Tweet.retweets t →
         retweets_of oid st1 = Some (u :: Tweet.retweets t))
      ∧ (u ∈ Tweet.retweets t →
         retweets_of oid st1 = Some (filter (λ y, y ≠ u) (Tweet.retweets t)))
      ∧ (∀ l, retweets_of oid st1 = Some l → (u ∈ l ↔ u ∉ Tweet.retweets t))
      ∧ likes_of oid st1 = Some (Tweet.likes t).
Proof.
  split.
  - unfold post_retweet, post_like. run_db.
    destruct (castObjectId id) as [oid|]; simpl;
      [|by rewrite swap_store_involutive].
    rewrite find_tweet_swap.
    destruct (find_tweet oid (tweets st)) as [t|]; simpl;
      [|by rewrite swap_store_involutive].
    unfold swap_store, set_tweets. simpl. f_equal.
    destruct st as [us ts]. simpl. f_equal.
    rewrite <- !list_fmap_compose. apply list_fmap_ext. intros _ t0 _. simpl.
    destruct (includes (Tweet.retweets t) (User.id me)); simpl;
      (destruct (decide (Tweet._id t0 = Tweet._id t)); simpl;
       [done | by rewrite swap_lists_involutive]).
  - intros oid t Hc Hf u st1.
    pose proof (find_tweet_Some _ _ _ Hf) as [Hid _].
    set (t1 := Tweet.set_retweets (toggled u (Tweet.retweets t)) t).
    assert (Hf1 : find_tweet oid (tweets st1) = Some t1).
    { unfold st1. rewrite (post_retweet_run me id oid t st Hc Hf).
      cbn [fst tweets set_tweets]. rewrite find_tweet_replace by done.
      rewrite Hf. simpl. by rewrite decide_True. }
    assert (Hr1 : retweets_of oid st1 = Some (toggled u (Tweet.retweets t))).
    { unfold retweets_of. rewrite Hf1. done. }
    split; [by rewrite (post_retweet_run me id oid t st Hc Hf)|].
    split; [intros Hn; rewrite Hr1; unfold toggled; by rewrite decide_False|].
    split; [intros Hn; rewrite Hr1; unfold toggled; by rewrite decide_True|].
    split; [|unfold likes_of; by rewrite Hf1].
    intros l. rewrite Hr1. intros [= <-]. unfold toggled.
    destruct (decide (u ∈ Tweet.retweets t)) as [Hin|Hnin].
    + split; [intros H; by apply not_elem_filter_ne in H|tauto].
    + split; [done|intros _; left].
Qed.

Lemma retweet_is_like_on_retweets_witness :
  (post_retweet alice tweet3_id demo).2
    = json (BToggle "isRetweeted" false alice_id)
  ∧ retweets_of tweet3_id (post_retweet alice tweet3_id demo).1 = Some []
  ∧ (post_retweet bob tweet3_id demo).2
    = json (BToggle "isRetweeted" true bob_id)
  ∧ retweets_of tweet3_id (post_retweet bob tweet3_id demo).1
    = Some [bob_id; alice_id].
Proof.
  pose proof (retweet_is_like_on_retweets alice tweet3_id demo) as [_ Ha].
  pose proof (retweet_is_like_on_retweets bob tweet3_id demo) as [_ Hb].
  destruct (Ha tweet3_id tweet3 eq_refl eq_refl) as (Har & _ & Hrem & _).
  destruct (Hb tweet3_id tweet3 eq_refl eq_refl) as (Hbr & Hins & _).
  split; [exact Har|]. split; [apply Hrem; left|].
  split; [exact Hbr|]. apply Hins.
  apply not_elem_of_cons. split; [by vm_compute | apply not_elem_of_nil].
Defined.

(** ** Delete *)

Lemma find_tweet_deleted oid ts :
  find_tweet oid (filter (λ t0, Tweet._id t0 ≠ oid) ts) = None.
Proof.
  apply find_tweet_None. intros t [Hne _]%list_elem_of_filter. done.
Qed.

Lemma get_tweet_found id oid t st :
  castObjectId id = Some oid →
  find_tweet oid (tweets st) = Some t →
  ∃ tj, get_tweet id st = (st, json (BTweet tj)) ∧ tj_doc tj = t.
Proof.
  intros Hc Hf. unfold get_tweet. run_db. rewrite Hc. simpl. rewrite Hf.
  eexists. split; [destruct st; reflexivity | done].
Qed.

Lemma get_tweet_missing id oid st :
  castObjectId id = Some oid →
  find_tweet oid (tweets st) = None →
  get_tweet id st = (st, status_json 404 (BMessage "Tweet not found")).
Proof.
  intros Hc Hf. unfold get_tweet. run_db. rewrite Hc. simpl. rewrite Hf.
  by destruct st.
Qed.

(** C3.  For an authenticated caller and an existing tweet [t]: when the
    caller is not the owner, the delete route answers 401, the store is
    unchanged and the read by identifier still answers 200 with [t]; when
    the caller is the owner, it answers 200, the read by identifier then
    answers 404, and the store keeps, in order, every tweet with another
    identifier -- in particular every reply whose parent is [t] -- and
    all users. *)
Theorem delete_needs_owner_and_does_not_cascade me id oid t st :
  castObjectId id = Some oid →
  find_tweet oid (tweets st) = Some t →
  let st' := (delete_tweet me id st).1 in
  let r := (delete_tweet me id st).2 in
  (Tweet.user t ≠ User.id me →
     status r = 401 ∧ st' = st
     ∧ ∃ tj, get_tweet id st' = (st', json (BTweet tj)) ∧ tj_doc tj = t)
  ∧ (Tweet.user t = User.id me →
     status r = 200
     ∧ status (get_tweet id st').2 = 404
     ∧ users st' = users st
     ∧ tweets st' = filter (λ t0, Tweet._id t0 ≠ oid) (tweets st)
     ∧ ∀ reply, reply ∈ tweets st → Tweet.parent reply = Some oid →
         Tweet._id reply ≠ oid → reply ∈ tweets st').
Proof.
  intros Hc Hf st' r.
  pose proof (find_tweet_Some _ _ _ Hf) as [Hid _].
  unfold st', r, delete_tweet. run_db. rewrite Hc. simpl. rewrite Hf.
  destruct (decide (Tweet.user t ≠ User.id me)) as [Hne|Heq]; simpl.
  - split; [|done]. intros _. destruct st as [us ts]. simpl in *.
    repeat split. exact (get_tweet_found id oid t (mkStore us ts) Hc Hf).
  - split; [done|]. intros _. rewrite Hid.
    repeat split.
    + erewrite get_tweet_missing; [done|done|]. simpl. apply find_tweet_deleted.
    + intros reply Hin _ Hne. apply list_elem_of_filter. done.
Qed.

Lemma delete_needs_owner_and_does_not_cascade_witness :
  status (delete_tweet alice tweet1_id demo).2 = 401
  ∧ status (delete_tweet bob tweet1_id demo).2 = 200
  ∧ tweet2 ∈ tweets (delete_tweet bob tweet1_id demo).1.
Proof.
  pose proof (delete_needs_owner_and_does_not_cascade alice tweet1_id tweet1_id
                tweet1 demo eq_refl eq_refl) as [Ha _].
  pose proof (delete_needs_owner_and_does_not_cascade bob tweet1_id tweet1_id
                tweet1 demo eq_refl eq_refl) as [_ Hb].
  split; [apply Ha; by vm_compute|].
  destruct (Hb eq_refl) as (Hs & _ & _ & _ & Hr).
  split; [exact Hs|]. apply Hr; [|reflexivity|by vm_compute].
  right; left.
Defined.

(** ** Create and reply *)

Lemma content_errors_nil content :
  content_errors content = [] ↔ ∃ c, content = Some c ∧ c ≠ "".
Proof.
  destruct content as [[|a c]|]; simpl; split; try done;
    try (intros (c' & [= <-] & Hc); done); try (intros (c' & [=] & _)).
  intros _. eexists. done.
Qed.

(** C8.  Whatever the request, the create route either leaves the tweets
    collection as it was or appends one tweet with no parent and
    [isReply] false, and the reply route either leaves it as it was or
    appends one tweet whose parent is the identifier of the existing
    tweet named by the path and whose [isReply] is true; either way the
    appended tweet has a parent exactly when it is a reply.  With a
    non-empty content of at most 280 UTF-16 code units, the length the
    schema bounds (and, for a reply, an existing parent), the tweet is
    appended and the answer is 200. *)
Theorem created_tweets_parent_iff_isReply me content file fresh now st :
  (let st' := (post_tweet me content file fresh now st).1 in
   tweets st' = tweets st
   ∨ ∃ t, tweets st' = (tweets st ++ [t])%list
          ∧ Tweet.parent t = None ∧ Tweet.isReply t = false
          ∧ parent_iff_isReply t)
  ∧ (∀ id,
     let st' := (post_reply me id content file fresh now st).1 in
     tweets st' = tweets st
     ∨ ∃ t oid p, tweets st' = (tweets st ++ [t])%list
          ∧ castObjectId id = Some oid
          ∧ find_tweet oid (tweets st) = Some p
          ∧ Tweet.parent t = Some (Tweet._id p) ∧ Tweet.isReply t = true
          ∧ parent_iff_isReply t)
  ∧ (∀ c, content = Some c → c ≠ "" → utf16_length c ≤ 280 →
     (∃ t, tweets (post_tweet me content file fresh now st).1
             = (tweets st ++ [t])%list
           ∧ Tweet.content t = c ∧ Tweet.user t = User.id me)
     ∧ status (post_tweet me content file fresh now st).2 = 200
     ∧ ∀ id oid p, castObjectId id = Some oid →
         find_tweet oid (tweets st) = Some p →
         (∃ t, tweets (post_reply me id content file fresh now st).1
                 = (tweets st ++ [t])%list
               ∧ Tweet.content t = c ∧ Tweet.user t = User.id me)
         ∧ status (post_reply me id content file fresh now st).2 = 200).
Proof.
  split; [|split].
  - unfold post_tweet. destruct (content_errors content); [|by left].
    run_db. destruct (Tweet_validate _); simpl; [|by left].
    right. eexists. split; [done|]. simpl. repeat split; try done.
    by intros [? [=]].
  - intros id. unfold post_reply. destruct (content_errors content); [|by left].
    run_db. destruct (castObjectId id) as [oid|] eqn:Hc; simpl; [|by left].
    destruct (find_tweet oid (tweets st)) as [p|] eqn:Hf; simpl; [|by left].
    destruct (Tweet_validate _); simpl; [|by left].
    right. eexists _, oid, p. split; [done|]. simpl.
    pose proof (find_tweet_Some _ _ _ Hf) as [-> _]. repeat split; try done.
  - intros c -> Hne Hlen.
    assert (He : content_errors (Some c) = []).
    { apply content_errors_nil. eauto. }
    assert (Hv : ∀ t, Tweet.content t = c → Tweet_validate t = true).
    { intros t0 <-. unfold Tweet_validate. apply andb_true_intro. split.
      - apply negb_true_iff, String.eqb_neq. done.
      - by apply Nat.leb_le. }
    unfold post_tweet, post_reply. rewrite He. run_db.
    rewrite Hv by done. simpl. split; [eexists; done|]. split; [done|].
    intros id oid p -> Hf. simpl. rewrite Hf. rewrite Hv by done. simpl.
    split; [eexists; done | done].
Qed.

Lemma created_tweets_parent_iff_isReply_witness :
  status (post_tweet alice (Some "hi") None "444444444444444444444444" 400 demo).2
    = 200
  ∧ status (post_reply alice tweet3_id (Some "hi") None
              "444444444444444444444444" 400 demo).2 = 200.
Proof.
  pose proof (created_tweets_parent_iff_isReply alice (Some "hi") None
                "444444444444444444444444" 400%Z demo) as (_ & _ & H).
  destruct (H "hi" eq_refl) as (_ & Hs & Hr); [done | vm_compute; lia |].
  split; [exact Hs|].
  exact (proj2 (Hr tweet3_id tweet3_id tweet3 eq_refl eq_refl)).
Defined.

(** ** Malformed identifiers *)

(** Every tweet route that takes a path identifier answers 404 on a
    malformed one (the reply route once its content check has passed). *)
Lemma tweet_routes_malformed_id_404 me id content file fresh now st :
  castObjectId id = None →
  status (get_tweet id st).2 = 404
  ∧ status (delete_tweet me id st).2 = 404
  ∧ status (post_like me id st).2 = 404
  ∧ status (post_retweet me id st).2 = 404
  ∧ status (get_replies id st).2 = 404
  ∧ status (get_user_tweets id st).2 = 404
  ∧ (content_errors content = [] →
     status (post_reply me id content file fresh now st).2 = 404).
Proof.
  intros Hc.
  unfold get_tweet, delete_tweet, post_like, post_retweet, get_replies,
    get_user_tweets, post_reply.
  run_db. rewrite Hc. simpl. repeat split. intros ->. done.
Qed.

(** The follow route has no such case in its catch clause. *)
Lemma follow_malformed_id_500 me id now1 now2 st :
  castObjectId id = None → id ≠ User.id me →
  post_follow me id now1 now2 st = (st, status_send 500 "Server error").
Proof.
  intros Hc Hne. unfold post_follow. run_db.
  rewrite decide_False by done. rewrite Hc. done.
Qed.

(** C6.  The follow route answers a malformed path identifier with 500,
    where the specification (and every tweet route, here the like route)
    has 404. *)
Theorem follow_malformed_identifier_is_500 :
  castObjectId "not-an-id" = None
  ∧ (∀ now1 now2, post_follow alice "not-an-id" now1 now2 demo
            = (demo, status_send 500 "Server error"))
  ∧ status (post_like alice "not-an-id" demo).2 = 404.
Proof. repeat split. Qed.

(** ** Follow *)

Lemma find_user_update oid k (f : User.doc → User.doc) us :
  (∀ u, User._id (f u) = User._id u) →
  find_user oid ((λ u, if decide (User._id u = k) then f u else u) <$> us)
  = (λ u, if decide (User._id u = k) then f u else u) <$> find_user oid us.
Proof.
  intros Hf. induction us as [|u us IH]; [done|]. simpl.
  destruct (decide (User._id u = k)); [rewrite Hf|];
    destruct (bool_decide (User._id u = oid)) eqn:E; simpl; try done.
  by rewrite decide_True. by rewrite decide_False.
Qed.

Lemma on_path_id path f u : User._id (on_path path f u) = User._id u.
Proof. by destruct path. Qed.

Lemma touch_id now f u :
  (∀ u, User._id (f u) = User._id u) → User._id (touch now f u) = User._id u.
Proof. intros Hf. unfold touch. simpl. apply Hf. Qed.

Lemma touch_on_path_id now path f u :
  User._id (touch now (on_path path f) u) = User._id u.
Proof. apply touch_id. intros. apply on_path_id. Qed.

Lemma addToSet_NoDup x l : NoDup l → NoDup (addToSet x l).
Proof.
  intros H. unfold addToSet. destruct (decide (x ∈ l)); [done|].
  apply NoDup_app. repeat split; [done| |apply NoDup_singleton].
  intros y Hy ->%list_elem_of_singleton. done.
Qed.

Lemma elem_of_addToSet x l : x ∈ addToSet x l.
Proof.
  unfold addToSet. destruct (decide (x ∈ l)); [done|].
  apply elem_of_app. right. by apply list_elem_of_singleton.
Qed.

(** The two lists after the two updates of the follow route. *)
Lemma post_follow_run me id tu now1 now2 st
    (f g : list ObjectId → list ObjectId) :
  let upd1 := λ u, if decide (User._id u = User.id me)
                   then touch now1 (on_path Following f) u else u in
  let upd2 := λ u, if decide (User._id u = id)
                   then touch now2 (on_path Followers g) u else u in
  authenticated st me → id ≠ User.id me →
  find_user id (users st) = Some tu →
  following_of (User.id me) (set_users (upd2 <$> (upd1 <$> users st)) st)
    = Some (f (User.following me))
  ∧ followers_of id (set_users (upd2 <$> (upd1 <$> users st)) st)
    = Some (g (User.followers tu)).
Proof.
  intros upd1 upd2 [_ Hme] Hne Htu. unfold auth in Hme.
  pose proof (find_user_Some _ _ _ Hme) as [Hmid _].
  pose proof (find_user_Some _ _ _ Htu) as [Htid _].
  unfold following_of, followers_of. simpl. unfold upd2.
  rewrite !find_user_update by (intros; apply touch_on_path_id). unfold upd1.
  rewrite !find_user_update by (intros; apply touch_on_path_id).
  rewrite Hme, Htu. simpl.
  rewrite (decide_True (P := User._id me = User.id me)) by done.
  rewrite (decide_False (P := User._id tu = User.id me)) by congruence.
  rewrite (decide_True (P := User._id tu = id)) by done. simpl.
  rewrite decide_False by congruence. done.
Qed.

(** On a target identifier in the text form the routes themselves emit,
    the follow route does what the specification says: for an
    authenticated caller it answers 400 and changes nothing when the
    target is the caller; answers 404 and changes nothing when no user has
    the target identifier; otherwise, when the caller is not following the
    target, the target is added to the caller's following list and the
    caller to the target's followers list by [addToSet] (which keeps a
    duplicate-free list duplicate-free), and when the caller is following
    the target, the target is removed from the caller's following list and
    the caller from the target's followers list. *)
Lemma follow_toggles_both_lists me id now1 now2 st :
  authenticated st me →
  is_id_text id →
  let c := User.id me in
  let st' := (post_follow me id now1 now2 st).1 in
  let r := (post_follow me id now1 now2 st).2 in
  (id = c → status r = 400 ∧ st' = st)
  ∧ (id ≠ c → find_user id (users st) = None → status r = 404 ∧ st' = st)
  ∧ (id ≠ c → ∀ tu, find_user id (users st) = Some tu →
       (id ∉ User.following me →
          r = json (BToggle "isFollowing" true c)
          ∧ following_of c st' = Some ((User.following me ++ [id])%list)
          ∧ followers_of id st' = Some (addToSet c (User.followers tu))
          ∧ c ∈ addToSet c (User.followers tu)
          ∧ (NoDup (User.following me) → NoDup ((User.following me ++ [id])%list))
          ∧ (NoDup (User.followers tu) → NoDup (addToSet c (User.followers tu))))
       ∧ (id ∈ User.following me →
          r = json (BToggle "isFollowing" false c)
          ∧ following_of c st' = Some (filter (λ y, y ≠ id) (User.following me))
          ∧ followers_of id st' = Some (filter (λ y, y ≠ c) (User.followers tu))
          ∧ (id ∉ filter (λ y, y ≠ id) (User.following me))
          ∧ (c ∉ filter (λ y, y ≠ c) (User.followers tu)))).
Proof.
  intros Hauth Hid c st' r. pose proof Hauth as [Hcid Hme].
  unfold is_id_text in Hid, Hcid. subst c.
  split; [|split].
  - intros ->. unfold st', r, post_follow. run_db.
    rewrite decide_True by done. by destruct st.
  - intros Hne Hnone. unfold st', r, post_follow. run_db.
    rewrite decide_False by done. rewrite Hid. simpl. rewrite Hnone.
    by destruct st.
  - intros Hne tu Htu.
    pose proof (λ f g, post_follow_run me id tu now1 now2 st f g Hauth Hne Htu)
      as Hrun.
    pose (after := λ f g : list ObjectId → list ObjectId,
      set_users
        ((λ u, if decide (User._id u = id)
               then touch now2 (on_path Followers g) u else u)
           <$> ((λ u, if decide (User._id u = User.id me)
                      then touch now1 (on_path Following f) u else u)
                  <$> users st)) st).
    split; intros Hfol.
    + assert (Hadd : addToSet id (User.following me)
                     = (User.following me ++ [id])%list)
        by (unfold addToSet; by rewrite decide_False).
      destruct (Hrun (addToSet id) (addToSet (User.id me))) as [H1 H2].
      rewrite Hadd in H1.
      assert (Hst : post_follow me id now1 now2 st =
                (after (addToSet id) (addToSet (User.id me)),
                 json (BToggle "isFollowing" true (User.id me)))).
      { unfold post_follow. run_db. rewrite decide_False by done.
        rewrite Hid. simpl. rewrite Htu. unfold includes.
        rewrite bool_decide_eq_false_2 by done.
        rewrite Hcid. simpl. reflexivity. }
      unfold st', r. rewrite Hst. simpl.
      split; [done|]. split; [exact H1|]. split; [exact H2|].
      split; [apply elem_of_addToSet|].
      split; [|apply addToSet_NoDup].
      rewrite <- Hadd. apply addToSet_NoDup.
    + destruct (Hrun (pull id) (pull (User.id me))) as [H1 H2].
      assert (Hst : post_follow me id now1 now2 st =
                (after (pull id) (pull (User.id me)),
                 json (BToggle "isFollowing" false (User.id me)))).
      { unfold post_follow. run_db. rewrite decide_False by done.
        rewrite Hid. simpl. rewrite Htu. unfold includes.
        rewrite bool_decide_eq_true_2 by done.
        rewrite Hcid. simpl. reflexivity. }
      unfold st', r. rewrite Hst. simpl.
      split; [done|]. split; [exact H1|]. split; [exact H2|].
      split; apply not_elem_filter_ne.
Qed.

Lemma follow_toggles_both_lists_witness :
  status (post_follow alice alice_id 500 501 demo).2 = 400
  ∧ following_of alice_id (post_follow alice bob_id 500 501 demo).1 = Some []
  ∧ followers_of bob_id (post_follow alice bob_id 500 501 demo).1 = Some [].
Proof.
  assert (Ha : authenticated demo alice) by (split; reflexivity).
  pose proof (follow_toggles_both_lists alice alice_id 500 501 demo Ha eq_refl)
    as (Hself & _ & _).
  pose proof (follow_toggles_both_lists alice bob_id 500 501 demo Ha eq_refl)
    as (_ & _ & Hbob).
  split; [exact (proj1 (Hself eq_refl))|].
  assert (Hne : bob_id ≠ User.id alice) by (by vm_compute).
  destruct (Hbob Hne bob eq_refl) as [_ Hun].
  destruct Hun as (_ & H1 & H2 & _); [left|]. split; [exact H1 | exact H2].
Defined.

(** C2.  The follow route compares the raw path text, in its self-follow
    check and in its test of the caller's following list, while the
    persistence layer casts that text to an identifier.  With the
    upper-case spelling of the caller's own identifier the route does not
    answer 400: it answers 200 with [isFollowing: true] and the caller is
    in their own following and followers lists.  With the upper-case
    spelling of a user the caller already follows the route does not
    unfollow: it answers [isFollowing: true] and both lists keep the
    entry.  The specification asks for 400 in the first case and for the
    removal from both lists in the second. *)
Theorem follow_compares_raw_path_text :
  castObjectId "AAAAAAAAAAAAAAAAAAAAAAAA" = Some (User.id alice)
  ∧ castObjectId "BBBBBBBBBBBBBBBBBBBBBBBB" = Some bob_id
  ∧ bob_id ∈ User.following alice
  ∧ ∀ now1 now2,
      (post_follow alice "AAAAAAAAAAAAAAAAAAAAAAAA" now1 now2 demo).2
        = json (BToggle "isFollowing" true alice_id)
      ∧ following_of alice_id
          (post_follow alice "AAAAAAAAAAAAAAAAAAAAAAAA" now1 now2 demo).1
        = Some [bob_id; alice_id]
      ∧ followers_of alice_id
          (post_follow alice "AAAAAAAAAAAAAAAAAAAAAAAA" now1 now2 demo).1
        = Some [alice_id]
      ∧ (post_follow alice "BBBBBBBBBBBBBBBBBBBBBBBB" now1 now2 demo).2
        = json (BToggle "isFollowing" true alice_id)
      ∧ following_of alice_id
          (post_follow alice "BBBBBBBBBBBBBBBBBBBBBBBB" now1 now2 demo).1
        = Some [bob_id]
      ∧ followers_of bob_id
          (post_follow alice "BBBBBBBBBBBBBBBBBBBBBBBB" now1 now2 demo).1
        = Some [alice_id].
Proof.
  split; [reflexivity|]. split; [reflexivity|]. split; [left|].
  intros now1 now2. repeat split.
Qed.

(** ** Profile update *)

Lemma cast_field_bind v r : cast_field v = Some r → r = v ≫= castString.
Proof.
  destruct v as [x|]; simpl; [|by intros [= <-]].
  destruct (castString x); simpl; [by intros [= <-] | done].
Qed.

Lemma cast_fields_castable (req_body : gmap string JsonValue) :
  castable req_body →
  ∃ cs, cast_fields (mkFields (truthy (req_body !! "name"))
                       (truthy (req_body !! "bio"))
                       (truthy (req_body !! "location"))
                       (truthy (req_body !! "website"))) = Some cs
        ∧ c_name cs = truthy (req_body !! "name") ≫= castString
        ∧ c_bio cs = truthy (req_body !! "bio") ≫= castString
        ∧ c_location cs = truthy (req_body !! "location") ≫= castString
        ∧ c_website cs = truthy (req_body !! "website") ≫= castString.
Proof.
  intros Hcast.
  assert (Hk : ∀ k, k ∈ ["name"; "bio"; "location"; "website"] →
               is_Some (cast_field (truthy (req_body !! k)))).
  { intros k Hin. destruct (req_body !! k) as [v|] eqn:Hv; simpl; [|by eexists].
    destruct (js_truthy v) eqn:Ht; simpl; [|by eexists].
    destruct (Hcast k v Hin Hv Ht) as [s ->]. by eexists. }
  destruct (Hk "name") as [n Hn]; [set_solver|].
  destruct (Hk "bio") as [b Hb]; [set_solver|].
  destruct (Hk "location") as [l Hl]; [set_solver|].
  destruct (Hk "website") as [w Hw]; [set_solver|].
  exists (mkCastFields n b l w). unfold cast_fields. simpl.
  rewrite Hn, Hb, Hl, Hw. simpl. split; [done|].
  repeat split; by apply cast_field_bind.
Qed.

Lemma put_users_me_run me (req_body : gmap string JsonValue) now st cs :
  authenticated st me →
  cast_fields (mkFields (truthy (req_body !! "name"))
                 (truthy (req_body !! "bio"))
                 (truthy (req_body !! "location"))
                 (truthy (req_body !! "website"))) = Some cs →
  put_users_me me req_body now st =
    (set_users ((λ u, if decide (User._id u = User.id me)
                      then touch now (set_fields cs) u else u) <$> users st) st,
     json (BUser (Some (select_minus_password (touch now (set_fields cs) me))))).
Proof.
  intros [Hcid Hme] Hcs. unfold is_id_text in Hcid. unfold auth in Hme.
  unfold put_users_me. run_db. rewrite Hcid. simpl. rewrite Hcs. simpl.
  rewrite Hme. done.
Qed.

Lemma cast_fields_None_or_castable (req_body : gmap string JsonValue) :
  castable req_body
  ∨ cast_fields (mkFields (truthy (req_body !! "name"))
                   (truthy (req_body !! "bio"))
                   (truthy (req_body !! "location"))
                   (truthy (req_body !! "website"))) = None.
Proof.
  assert (Hk : ∀ k r, cast_field (truthy (req_body !! k)) = Some r →
               ∀ v, req_body !! k = Some v → js_truthy v = true →
                    is_Some (castString v)).
  { intros k r Hr v Hv Ht. rewrite Hv in Hr. simpl in Hr. rewrite Ht in Hr.
    simpl in Hr. destruct (castString v); [by eexists | done]. }
  unfold cast_fields. cbn [f_name f_bio f_location f_website].
  destruct (cast_field (truthy (req_body !! "name"))) as [n|] eqn:Hn;
    [|by right].
  destruct (cast_field (truthy (req_body !! "bio"))) as [b|] eqn:Hb;
    [|by right].
  destruct (cast_field (truthy (req_body !! "location"))) as [l|] eqn:Hl;
    [|by right].
  destruct (cast_field (truthy (req_body !! "website"))) as [w|] eqn:Hw;
    [|by right].
  left. intros k v Hin.
  apply list_elem_of_In in Hin. simpl in Hin.
  destruct Hin as [<-|[<-|[<-|[<-|[]]]]]; eauto.
Qed.

(** The claim C7 as the specification words it fails twice: an update
    rewrites the update timestamp, a field of the record that is not
    among the four; and a body whose [name] is an array cannot be cast, the
    route answers 500 and returns no record. *)
Lemma update_me_rewrites_timestamp_and_rejects_arrays :
  (∃ me', find_user alice_id
            (users (put_users_me alice {["bio" := JString "hi"]} 500 demo).1)
          = Some me'
          ∧ User.updatedAt me' ≠ User.updatedAt alice)
  ∧ put_users_me alice {["name" := JArray []]} 500 demo
    = (demo, status_send 500 "Server error").
Proof.
  split; [|reflexivity].
  eexists. split; [reflexivity|]. simpl. done.
Qed.

(** C7, amended.  For an authenticated caller and a request body whose
    recognised fields, where present and truthy, can be cast to strings,
    the profile update at clock reading [now] answers 200 with the
    caller's updated record, password excluded.  In the stored record each
    of [name], [bio], [location], [website] takes the body's value, cast
    to a string, when the body has a truthy one, and keeps its value
    otherwise -- in particular when the body lacks the field; the update
    timestamp becomes [now]; every other field of the record, every other
    user and all tweets are unchanged; and two bodies that agree on the
    four recognised fields have the same effect and answer, so
    unrecognised fields change nothing.  For any other body the answer is
    500 and the store is unchanged. *)
Theorem update_me_changes_only_present_fields me
    (req_body : gmap string JsonValue) now st :
  authenticated st me →
  (castable req_body →
   let st' := (put_users_me me req_body now st).1 in
   let field := λ k (old : string),
                  default old (truthy (req_body !! k) ≫= castString) in
   (∃ me', find_user (User.id me) (users st') = Some me'
      ∧ (put_users_me me req_body now st).2
          = json (BUser (Some (select_minus_password me')))
      ∧ uj_password (select_minus_password me') = None
      ∧ User.name me' = field "name" (User.name me)
      ∧ User.bio me' = field "bio" (User.bio me)
      ∧ User.location me' = field "location" (User.location me)
      ∧ User.website me' = field "website" (User.website me)
      ∧ User.updatedAt me' = now
      ∧ User._id me' = User._id me
      ∧ User.username me' = User.username me
      ∧ User.email me' = User.email me
      ∧ User.password me' = User.password me
      ∧ User.profileImage me' = User.profileImage me
      ∧ User.coverImage me' = User.coverImage me
      ∧ User.followers me' = User.followers me
      ∧ User.following me' = User.following me
      ∧ User.createdAt me' = User.createdAt me)
   ∧ (∀ k old, req_body !! k = None → field k old = old)
   ∧ (∀ k old s, req_body !! k = Some (JString s) → s ≠ "" → field k old = s)
   ∧ tweets st' = tweets st
   ∧ (∀ oid, oid ≠ User.id me →
        find_user oid (users st') = find_user oid (users st))
   ∧ (∀ body' : gmap string JsonValue,
        (∀ k, k ∈ ["name"; "bio"; "location"; "website"] →
              body' !! k = req_body !! k) →
        put_users_me me body' now st = put_users_me me req_body now st))
  ∧ (¬ castable req_body →
     put_users_me me req_body now st = (st, status_send 500 "Server error")).
Proof.
  intros Hauth. pose proof Hauth as [Hcid Hme].
  unfold auth in Hme. pose proof (find_user_Some _ _ _ Hme) as [Hmid _].
  split.
  - intros Hcast st' field.
    destruct (cast_fields_castable req_body Hcast)
      as (cs & Hcs & Hn & Hb & Hl & Hw).
    unfold st'. rewrite (put_users_me_run me req_body now st cs Hauth Hcs).
    cbn [fst snd users tweets set_users].
    assert (Hid : ∀ u, User._id (touch now (set_fields cs) u) = User._id u)
      by done.
    split; [|split; [|split; [|split; [|split]]]].
    + exists (touch now (set_fields cs) me). split.
      { rewrite find_user_update by exact Hid. rewrite Hme. simpl.
        by rewrite decide_True. }
      split; [done|]. split; [done|]. unfold field.
      rewrite <- Hn, <- Hb, <- Hl, <- Hw. repeat split.
    + intros k old Hk. unfold field. by rewrite Hk.
    + intros k old s Hk Hs. unfold field. rewrite Hk. simpl.
      destruct (String.eqb_spec s ""); done.
    + done.
    + intros oid Hne. rewrite find_user_update by exact Hid.
      destruct (find_user oid (users st)) as [u|] eqn:Hu; [|done]. simpl.
      apply find_user_Some in Hu as [Hu _].
      rewrite decide_False by congruence. done.
    + intros body' Hagree.
      apply (put_users_me_run me body' now st cs Hauth).
      rewrite (Hagree "name"), (Hagree "bio"), (Hagree "location"),
        (Hagree "website") by set_solver.
      exact Hcs.
  - intros Hncast.
    destruct (cast_fields_None_or_castable req_body) as [Hc|Hnone]; [done|].
    unfold is_id_text in Hcid. unfold put_users_me. run_db.
    rewrite Hcid. simpl. rewrite Hnone. done.
Qed.

Lemma update_me_changes_only_present_fields_witness :
  (∃ me', find_user alice_id
            (users (put_users_me alice
                      {["bio" := JString "hi"; "admin" := JArray []]} 500 demo).1)
          = Some me'
        ∧ User.bio me' = "hi" ∧ User.name me' = "Alice"
        ∧ User.updatedAt me' = 500%Z)
  ∧ put_users_me alice {["name" := JObject []]} 500 demo
    = (demo, status_send 500 "Server error").
Proof.
  assert (Ha : authenticated demo alice) by (split; reflexivity).
  destruct (update_me_changes_only_present_fields alice
              {["bio" := JString "hi"; "admin" := JArray []]} 500 demo Ha)
    as [Hok _].
  destruct (update_me_changes_only_present_fields alice
              {["name" := JObject []]} 500 demo Ha) as [_ Hbad].
  split.
  - destruct Hok as ((me' & Hf & _ & _ & Hn & Hb & _ & _ & Hu & _) & _).
    + intros k v Hk Hv Ht.
      apply list_elem_of_In in Hk. simpl in Hk.
      destruct Hk as [<-|[<-|[<-|[<-|[]]]]]; vm_compute in Hv;
        try discriminate Hv.
      injection Hv as <-. by eexists.
    + exists me'. split; [exact Hf|]. split; [exact Hb|]. split; [exact Hn|].
      exact Hu.
  - apply Hbad. intros Hc.
    destruct (Hc "name" (JObject []) ltac:(left) eq_refl eq_refl) as [s Hs].
    discriminate Hs.
Defined.

(** ** Timeline *)

Lemma timeline_filter_eligible me t :
  Is_true (timeline_filter me t) ↔ eligible me t.
Proof.
  unfold timeline_filter, eligible.
  rewrite andb_True, orb_True, !bool_decide_spec, negb_True, Is_true_false.
  rewrite elem_of_app, list_elem_of_singleton, Exists_exists.
  split.
  - intros [[[H|H]|(r & Hr & ->%list_elem_of_singleton)] Hrep]; auto.
  - intros [Hrep [H|[H|H]]]; split; auto.
    right. exists (User.id me). split; [done | by apply list_elem_of_singleton].
Qed.

Lemma populate_user_run t st :
  populate_user t st
  = (st, Ok (mkTweetJson t (Some (card <$> find_user (Tweet.user t) (users st)))
               None)).
Proof. reflexivity. Qed.

Lemma populate_user_parent_run t st :
  populate_user_parent t st
  = (st, Ok (mkTweetJson t
               (Some (card <$> find_user (Tweet.user t) (users st)))
               (Some ((λ pt, (pt, card <$> find_user (Tweet.user pt) (users st)))
                        <$> (Tweet.parent t ≫= λ pid, find_tweet pid (tweets st)))))).
Proof. reflexivity. Qed.

(** Populating a list of tweets reads the store and keeps the tweets. *)
Lemma db_map_populate_user_parent ts st :
  ∃ tjs, db_map populate_user_parent ts st = (st, Ok tjs)
         ∧ tj_doc <$> tjs = ts
         ∧ Forall (λ tj, tj_user tj
                     = Some (card <$> find_user (Tweet.user (tj_doc tj)) (users st)))
                  tjs.
Proof.
  induction ts as [|t ts (tjs & IH & Hd & Hu)].
  - exists []. repeat split. constructor.
  - eexists (_ :: tjs). split; [|split].
    + simpl. unfold mbind, db_bind. rewrite populate_user_parent_run, IH. reflexivity.
    + simpl. f_equal. exact Hd.
    + constructor; done.
Qed.

Lemma db_map_populate_user ts st :
  ∃ tjs, db_map populate_user ts st = (st, Ok tjs)
         ∧ tj_doc <$> tjs = ts
         ∧ Forall (λ tj, tj_user tj
                     = Some (card <$> find_user (Tweet.user (tj_doc tj)) (users st)))
                  tjs.
Proof.
  induction ts as [|t ts (tjs & IH & Hd & Hu)].
  - exists []. repeat split. constructor.
  - eexists (_ :: tjs). split; [|split].
    + simpl. unfold mbind, db_bind. rewrite populate_user_run, IH. reflexivity.
    + simpl. f_equal. exact Hd.
    + constructor; done.
Qed.

Lemma sort_newest_spec ts :
  StronglySorted newer (sort_newest ts) ∧ sort_newest ts ≡ₚ ts.
Proof.
  split; [apply StronglySorted_merge_sort; apply _ | apply merge_sort_Permutation].
Qed.

(** The timeline for a parsed page number [page >= 1]. *)
Lemma get_timeline_run me q st :
  (1 ≤ or_one (parseInt q))%Z →
  ∃ tjs, get_timeline me q st = (st, json (BTweets tjs))
    ∧ tj_doc <$> tjs
      = take 10 (drop (Z.to_nat ((or_one (parseInt q) - 1) * 10))
                   (sort_newest (filter (eligible me) (tweets st))))
    ∧ Forall (λ tj, tj_user tj
                = Some (card <$> find_user (Tweet.user (tj_doc tj)) (users st)))
             tjs.
Proof.
  intros Hp.
  unfold get_timeline, try_catch, get_tweets, skip, throw, limit,
    mbind, db_bind, mret, db_ret.
  replace ((or_one (parseInt q) - 1) * Z.of_nat 10 <? 0)%Z with false
    by (symmetry; apply Z.ltb_ge; lia).
  rewrite (list_filter_iff _ (eligible me))
    by (intros t; apply timeline_filter_eligible).
  change (Z.of_nat 10) with 10%Z.
  destruct (db_map_populate_user_parent
              (take 10 (drop (Z.to_nat ((or_one (parseInt q) - 1) * 10))
                 (sort_newest (filter (eligible me) (tweets st))))) st)
    as (tjs & Hrun & Hd & Hu).
  exists tjs. rewrite Hrun. split; [done|]. split; done.
Qed.

(** C4.  For an authenticated caller and a page number [p >= 1], the
    timeline answers 200 with the tweets at positions [(p-1)*10+1] to
    [p*10] of the ranking: the eligible tweets (non-replies authored by
    the caller, by a user the caller follows, or retweeted by the caller)
    sorted newest first.  Position [i] (from 0) of the answer is position
    [(p-1)*10 + i] of the ranking, the answer has at most 10 tweets, the
    ranking holds exactly the eligible tweets of the store and is sorted
    by creation time, newest first. *)
Theorem timeline_page_of_ranked_eligible me q p st :
  parseInt q = Some p → (1 ≤ p)%Z →
  let ranking := sort_newest (filter (eligible me) (tweets st)) in
  let first := Z.to_nat ((p - 1) * 10) in
  (∃ tjs, get_timeline me q st = (st, json (BTweets tjs))
     ∧ tj_doc <$> tjs = take 10 (drop first ranking)
     ∧ (∀ i, i < 10 → (tj_doc <$> tjs) !! i = ranking !! (first + i))
     ∧ length tjs = min 10 (length ranking - first))
  ∧ StronglySorted newer ranking
  ∧ ranking ≡ₚ filter (eligible me) (tweets st)
  ∧ (∀ t, t ∈ ranking ↔ t ∈ tweets st ∧ eligible me t).
Proof.
  intros Hq Hp ranking first.
  assert (Hpage : or_one (parseInt q) = p).
  { rewrite Hq. simpl. destruct (Z.eqb_spec p 0); [lia | done]. }
  destruct (get_timeline_run me q st) as (tjs & Hrun & Hd & _);
    [rewrite Hpage; lia|].
  rewrite Hpage in Hd. fold ranking first in Hd.
  destruct (sort_newest_spec (filter (eligible me) (tweets st))) as [Hs Hperm].
  split; [|split; [done|split; [done|]]].
  - exists tjs. split; [done|]. split; [done|]. split.
    + intros i Hi. rewrite Hd, lookup_take_lt, lookup_drop by done. done.
    + rewrite <- (length_fmap tj_doc), Hd, length_take, length_drop. done.
  - intros t. unfold ranking. rewrite Hperm, list_elem_of_filter. tauto.
Qed.

Lemma timeline_page_of_ranked_eligible_witness :
  ∃ tjs, get_timeline alice (Some "2") demo = (demo, json (BTweets tjs))
         ∧ length tjs = 0.
Proof.
  destruct (timeline_page_of_ranked_eligible alice (Some "2") 2 demo eq_refl)
    as ((tjs & Hrun & _ & _ & Hlen) & _); [lia|].
  exists tjs. split; [exact Hrun | exact Hlen].
Defined.

(** ** Page parameter *)

Lemma parseInt_non_numeric s : non_numeric s → parseInt (Some s) = None.
Proof.
  unfold non_numeric, parseInt. simpl.
  destruct (strip_sign (trim_start s)) as [sign s1]. simpl.
  destruct s1 as [|c s2]; [done|].
  destruct c as [[] [] [] [] [] [] [] []]; intros H;
    try discriminate H; reflexivity.
Qed.

Lemma get_timeline_page_only me q q' st :
  or_one (parseInt q) = or_one (parseInt q') →
  get_timeline me q st = get_timeline me q' st.
Proof. intros H. unfold get_timeline. by rewrite H. Qed.

(** A page parameter that is not numeric as a whole but begins with a
    number is read as that number: [12abc] is page 12 (skip 110) and [2nd]
    is page 2, which for Alice is empty while page 1 is not. *)
Lemma page_with_leading_digits_is_not_first :
  is_number_text "12abc" = false ∧ is_number_text "2nd" = false
  ∧ or_one (parseInt (Some "12abc")) = 12%Z
  ∧ ((or_one (parseInt (Some "12abc")) - 1) * 10 = 110)%Z
  ∧ or_one (parseInt (Some "2nd")) = 2%Z
  ∧ get_timeline alice (Some "2nd") demo = (demo, json (BTweets []))
  ∧ get_timeline alice (Some "2nd") demo ≠ get_timeline alice (Some "1") demo.
Proof.
  repeat split. by vm_compute.
Qed.

(** C10, amended.  A page parameter that is absent, that has no number to
    read at its start (after the leading white space and an optional sign
    it is empty or does not begin with a decimal digit, or [parseInt]
    gives NaN for another reason, as on a bare [0x]), or that reads as 0,
    gives page 1: the skip is 0, the answer is the one for [page=1], with
    status 200 and the first ten tweets of the ranking.  A parameter that
    reads as a number other than 0 gives that page, whatever follows the
    number. *)
Theorem timeline_page_defaults_to_first me q st :
  (q = None
   ∨ (∃ s, q = Some s
           ∧ (non_numeric s ∨ parseInt (Some s) = None
              ∨ parseInt (Some s) = Some 0%Z)) →
   or_one (parseInt q) = 1%Z
   ∧ ((or_one (parseInt q) - 1) * 10 = 0)%Z
   ∧ get_timeline me q st = get_timeline me (Some "1") st
   ∧ ∃ tjs, get_timeline me q st = (st, json (BTweets tjs))
            ∧ tj_doc <$> tjs
              = take 10 (sort_newest (filter (eligible me) (tweets st))))
  ∧ (∀ n, parseInt q = Some n → n ≠ 0%Z → or_one (parseInt q) = n).
Proof.
  split.
  - intros Hq.
    assert (Hone : or_one (parseInt q) = 1%Z).
    { destruct Hq as [->|(s & -> & [Hs|[Hs|Hs]])];
        [done| |by rewrite Hs|by rewrite Hs].
      by rewrite parseInt_non_numeric. }
    split; [done|]. split; [by rewrite Hone|].
    split; [by apply get_timeline_page_only|].
    destruct (get_timeline_run me q st) as (tjs & Hrun & Hd & _);
      [rewrite Hone; lia|].
    exists tjs. split; [done|]. rewrite Hd, Hone. done.
  - intros n -> Hn. simpl. destruct (Z.eqb_spec n 0); done.
Qed.

Lemma timeline_page_defaults_to_first_witness :
  get_timeline alice None demo = get_timeline alice (Some "1") demo
  ∧ get_timeline alice (Some "abc") demo = get_timeline alice (Some "1") demo
  ∧ get_timeline alice (Some "0x") demo = get_timeline alice (Some "1") demo
  ∧ get_timeline alice (Some "0") demo = get_timeline alice (Some "1") demo
  ∧ or_one (parseInt (Some "12abc")) = 12%Z.
Proof.
  split; [|split; [|split; [|split]]].
  - apply (timeline_page_defaults_to_first alice None demo). by left.
  - apply (timeline_page_defaults_to_first alice (Some "abc") demo).
    right. exists "abc". split; [reflexivity|]. left. reflexivity.
  - apply (timeline_page_defaults_to_first alice (Some "0x") demo).
    right. exists "0x". split; [reflexivity|]. right. left. reflexivity.
  - apply (timeline_page_defaults_to_first alice (Some "0") demo).
    right. exists "0". split; [reflexivity|]. right. right. reflexivity.
  - apply (proj2 (timeline_page_defaults_to_first alice (Some "12abc") demo)
             12%Z); [reflexivity | lia].
Defined.

(** ** Search *)

Lemma starts_with_spec p s :
  starts_with p s = true ↔ ∃ suf, s = p ++ suf.
Proof.
  revert s. induction p as [|a p IH]; intros s; simpl.
  - split; [eauto | done].
  - destruct s as [|b s]; simpl.
    + split; [done | by intros [suf [=]]].
    + rewrite andb_true_iff, IH. split.
      * intros [->%Ascii.eqb_eq [suf ->]]. eauto.
      * intros [suf [= -> ->]]. split; [apply Ascii.eqb_refl | eauto].
Qed.

Lemma string_includes_spec p s :
  string_includes p s = true ↔ ∃ pre suf, s = pre ++ p ++ suf.
Proof.
  induction s as [|c s IH]; simpl; rewrite orb_true_iff, starts_with_spec.
  - split.
    + intros [[suf H]|[=]]. exists "", suf. done.
    + intros (pre & suf & H). left. destruct pre; [eauto | done].
  - rewrite IH. split.
    + intros [[suf H]|(pre & suf & ->)].
      * exists "", suf. done.
      * exists (String c pre), suf. done.
    + intros (pre & suf & H). destruct pre as [|c' pre]; simpl in H.
      * left. eauto.
      * right. injection H as -> ->. eauto.
Qed.

Lemma ci_includes_spec q s : Is_true (ci_includes q s) ↔ ci_contains q s.
Proof.
  unfold ci_includes, ci_contains. rewrite Is_true_true.
  apply string_includes_spec.
Qed.

Lemma match_here_literals q s :
  match_here (literals q) s = starts_with (toLowerCase q) (toLowerCase s).
Proof.
  revert s. induction q as [|a q IH]; intros s; [done|].
  destruct s as [|c s]; simpl; [done|]. by rewrite IH.
Qed.

Lemma regex_test_literals q s :
  regex_test (literals q) s = ci_includes q s.
Proof.
  unfold ci_includes. induction s as [|c s IH]; simpl.
  - by rewrite match_here_literals.
  - by rewrite match_here_literals, IH.
Qed.

Lemma not_meta_not_dot_nor_quantifier c :
  is_meta c = false → Ascii.eqb c "." = false ∧ is_quantifier c = false.
Proof.
  destruct c as [[] [] [] [] [] [] [] []]; intros H;
    solve [discriminate H | split; reflexivity].
Qed.

Lemma compile_atoms_literals q : no_meta q → compile_atoms q = Some (literals q).
Proof.
  unfold no_meta. induction q as [|c q IH]; simpl; [done|].
  intros [Hc Hq]%andb_true_iff. apply negb_true_iff in Hc.
  destruct (not_meta_not_dot_nor_quantifier c Hc) as [-> _].
  rewrite Hc, IH by done. done.
Qed.

Lemma regex_compile_literals q : no_meta q → regex_compile q = Compiled (literals q).
Proof.
  intros H. unfold regex_compile. destruct q as [|c q]; [done|].
  rewrite compile_atoms_literals by done.
  unfold no_meta in H. simpl in H. apply andb_true_iff in H as [Hc _].
  apply negb_true_iff in Hc.
  destruct (not_meta_not_dot_nor_quantifier c Hc) as [_ ->]. done.
Qed.

(** The search for a query of literal characters. *)
Lemma get_search_literal q st :
  q ≠ "" → no_meta q →
  ∃ ts,
    get_search (Some q) st =
      Some (st, json (BSearch
        (select_minus_password_email <$>
           take 10 (filter (λ u, ci_includes q (User.name u)
                                 || ci_includes q (User.username u)) (users st)))
        ts))
    ∧ tj_doc <$> ts
      = take 20 (sort_newest
                   (filter (λ t, ci_includes q (Tweet.content t)) (tweets st))).
Proof.
  intros Hne Hq. unfold get_search. destruct q as [|c q]; [done|].
  rewrite regex_compile_literals by done.
  unfold try_catch, get_users, get_tweets, limit, mbind, db_bind, mret, db_ret.
  rewrite (list_filter_iff _ (λ t, ci_includes (String c q) (Tweet.content t)))
    by (intros t; by rewrite regex_test_literals).
  rewrite (list_filter_iff _
             (λ u, ci_includes (String c q) (User.name u)
                   || ci_includes (String c q) (User.username u)))
    by (intros u; by rewrite !regex_test_literals).
  destruct (db_map_populate_user
              (take 20 (sort_newest
                 (filter (λ t, ci_includes (String c q) (Tweet.content t))
                    (tweets st)))) st)
    as (ts & Hrun & Hd & _).
  exists ts. rewrite Hrun. done.
Qed.

(** The substring reading of C5 fails: the query is handed to the store
    as a regular expression, so the query [.] returns a tweet whose
    content has no dot in it. *)
Lemma search_dot_returns_tweet_without_dot :
  ∃ us ts tj,
    get_search (Some ".") demo = Some (demo, json (BSearch us ts))
    ∧ tj ∈ ts
    ∧ ¬ ci_contains "." (Tweet.content (tj_doc tj)).
Proof.
  eexists _, _, (mkTweetJson tweet1 _ _). split; [reflexivity|]. split.
  - right. right. left.
  - rewrite <- ci_includes_spec. vm_compute. exact id.
Qed.

(** C5, amended.  A missing or empty query is answered 400.  A non-empty
    query free of regular-expression operators is answered 200 with the
    first 10, in store order, of the users whose name or username contains
    it as a case-insensitive substring, password and email excluded, and
    the first 20, newest first, of the tweets whose content contains it as
    a case-insensitive substring; when no record matches, both lists are
    empty and the answer is still 200. *)
Theorem search_by_literal_substring q st :
  get_search None st
    = Some (st, status_json 400 (BMessage "Search query is required"))
  ∧ get_search (Some "") st
    = Some (st, status_json 400 (BMessage "Search query is required"))
  ∧ (q ≠ "" → no_meta q →
     let user_matches := λ u, ci_includes q (User.name u)
                              || ci_includes q (User.username u) in
     let tweet_matches := λ t, ci_includes q (Tweet.content t) in
     let ranking := sort_newest (filter (λ t, tweet_matches t) (tweets st)) in
     ∃ us ts,
       get_search (Some q) st = Some (st, json (BSearch us ts))
       ∧ us = select_minus_password_email
                <$> take 10 (filter (λ u, user_matches u) (users st))
       ∧ tj_doc <$> ts = take 20 ranking
       ∧ length us ≤ 10 ∧ length ts ≤ 20
       ∧ Forall (λ u, uj_password u = None ∧ uj_email u = None) us
       ∧ StronglySorted newer ranking
       ∧ (∀ t, t ∈ ranking ↔ t ∈ tweets st ∧ ci_contains q (Tweet.content t))
       ∧ (∀ u, u ∈ filter (λ u, user_matches u) (users st) ↔
               u ∈ users st ∧ (ci_contains q (User.name u)
                               ∨ ci_contains q (User.username u)))
       ∧ ((∀ u, u ∈ users st → ¬ ci_contains q (User.name u)
                               ∧ ¬ ci_contains q (User.username u)) →
          (∀ t, t ∈ tweets st → ¬ ci_contains q (Tweet.content t)) →
          us = [] ∧ ts = [])).
Proof.
  split; [done|]. split; [done|].
  intros Hne Hq user_matches tweet_matches ranking.
  destruct (get_search_literal q st Hne Hq) as (ts & Hrun & Hd).
  destruct (sort_newest_spec (filter (λ t, tweet_matches t) (tweets st)))
    as [Hs Hperm].
  assert (Hrank : ∀ t, t ∈ ranking ↔
                       t ∈ tweets st ∧ ci_contains q (Tweet.content t)).
  { intros t. unfold ranking. rewrite Hperm, list_elem_of_filter.
    unfold tweet_matches. rewrite ci_includes_spec. tauto. }
  assert (Hus : ∀ u, u ∈ filter (λ u, user_matches u) (users st) ↔
                  u ∈ users st ∧ (ci_contains q (User.name u)
                                  ∨ ci_contains q (User.username u))).
  { intros u. rewrite list_elem_of_filter. unfold user_matches.
    rewrite orb_True, !ci_includes_spec. tauto. }
  exists (select_minus_password_email
            <$> take 10 (filter (λ u, user_matches u) (users st))), ts.
  split; [exact Hrun|]. split; [reflexivity|].
  split; [exact Hd|]. split; [|split; [|split; [|split; [done|split;
    [exact Hrank|split; [exact Hus|]]]]]].
  - rewrite length_fmap, length_take. lia.
  - rewrite <- (length_fmap tj_doc), Hd, length_take. lia.
  - apply Forall_fmap, Forall_true. done.
  - intros Hnu Hnt.
    assert (filter (λ u, user_matches u) (users st) = []) as Hempty.
    { apply elem_of_nil_inv. intros u [Hin Hm]%Hus.
      destruct (Hnu u Hin). tauto. }
    split; [by rewrite Hempty|].
    assert (ranking = []) as Hr.
    { apply elem_of_nil_inv. intros t [Hin Hm]%Hrank. by apply (Hnt t). }
    change (tj_doc <$> ts = take 20 ranking) in Hd. rewrite Hr in Hd. simpl in Hd.
    by apply fmap_nil_inv in Hd.
Qed.

Lemma search_by_literal_substring_witness :
  ∃ us ts, get_search (Some "HELLO") demo = Some (demo, json (BSearch us ts))
           ∧ tj_doc <$> ts = [tweet2; tweet1].
Proof.
  destruct (search_by_literal_substring "HELLO" demo) as (_ & _ & H).
  destruct H as (us & ts & Hrun & _ & Hd & _); [done | reflexivity |].
  exists us, ts. split; [exact Hrun | exact Hd].
Defined.

(** ** Authentication and the primary key *)

Lemma with_auth_unknown credential handler st :
  auth st credential = None →
  with_auth credential handler st
  = (st, status_json 401 (BMessage "Token is not valid")).
Proof. intros H. unfold with_auth. by rewrite H. Qed.

Lemma with_auth_known credential handler st req_user :
  auth st credential = Some req_user →
  with_auth credential handler st = handler req_user st.
Proof. intros H. unfold with_auth. by rewrite H. Qed.

Lemma save_keeps_ids t' (ts : list Tweet.doc) :
  Tweet._id <$> ((λ t0, if decide (Tweet._id t0 = Tweet._id t') then t' else t0)
                   <$> ts)
  = Tweet._id <$> ts.
Proof.
  rewrite <- list_fmap_compose. apply list_fmap_ext. intros _ t0 _. simpl.
  by destruct (decide (Tweet._id t0 = Tweet._id t')).
Qed.

(** The like, retweet and delete routes keep identifiers unique. *)
Lemma toggles_and_delete_keep_wf me id st :
  wf_store st →
  wf_store (post_like me id st).1
  ∧ wf_store (post_retweet me id st).1
  ∧ wf_store (delete_tweet me id st).1.
Proof.
  intros [Hu Ht]. unfold post_like, post_retweet, delete_tweet. run_db.
  destruct (castObjectId id) as [oid|]; simpl; [|done].
  destruct (find_tweet oid (tweets st)) as [t|]; simpl; [|done].
  split; [|split].
  - split; [done|]. simpl. destruct (includes _ _); by rewrite save_keeps_ids.
  - split; [done|]. simpl. destruct (includes _ _); by rewrite save_keeps_ids.
  - destruct (decide (Tweet.user t ≠ User.id me)); simpl; [done|].
    split; [done|]. simpl.
    eapply sublist_NoDup; [exact Ht|]. apply fmap_sublist, sublist_filter.
Qed.

(** A new tweet keeps identifiers unique when its identifier is fresh. *)
Lemma post_tweet_keeps_wf me content file fresh now st :
  wf_store st →
  (∀ t, t ∈ tweets st → Tweet._id t ≠ fresh) →
  wf_store (post_tweet me content file fresh now st).1.
Proof.
  intros [Hu Ht] Hfresh. unfold post_tweet.
  destruct (content_errors content); [|done]. run_db.
  destruct (Tweet_validate _); simpl; [|done].
  split; [done|]. simpl. rewrite fmap_app. apply NoDup_app.
  split; [done|]. split; [|apply NoDup_singleton].
  intros x (t & Hx & Hin)%list_elem_of_fmap Hf%list_elem_of_singleton.
  simpl in Hf. apply (Hfresh t Hin). congruence.
Qed.

(** ** Worked examples *)

Example parseInt_examples :
  parseInt (Some "2") = Some 2%Z
  ∧ parseInt (Some "  42") = Some 42%Z
  ∧ parseInt (Some "12abc") = Some 12%Z
  ∧ parseInt (Some "-3") = Some (-3)%Z
  ∧ parseInt (Some "0x1F") = Some 31%Z
  ∧ parseInt (Some "") = None
  ∧ parseInt (Some "abc") = None
  ∧ parseInt (Some "0x") = None
  ∧ parseInt None = None.
Proof. repeat split. Qed.

(** White space outside ASCII is skipped as well: a no-break space
    (U+00A0, the bytes 194 and 160) before [2] reads as 2. *)
Example parseInt_no_break_space :
  parseInt (Some (String (ascii_of_nat 194) (String (ascii_of_nat 160) "2")))
  = Some 2%Z.
Proof. reflexivity. Qed.

(** Alice follows Bob and has retweeted Carol's tweet: her timeline is
    Carol's tweet, then Bob's; her own reply is not on it. *)
Example timeline_of_alice :
  ∃ tjs, get_timeline alice None demo = (demo, json (BTweets tjs))
         ∧ tj_doc <$> tjs = [tweet3; tweet1].
Proof. eexists. split; reflexivity. Qed.

(** A negative page number reaches the store as a negative skip and is
    answered 500. *)
Example timeline_negative_page :
  status (get_timeline alice (Some "-1") demo).2 = 500.
Proof. reflexivity. Qed.

(** A query that opens with a quantifier is rejected by the store's
    engine and answered 500. *)
Example search_invalid_pattern :
  (λ r, status r.2) <$> get_search (Some "*") demo = Some 500.
Proof. reflexivity. Qed.

(** Content longer than 280 UTF-16 code units passes the route's check
    and fails the schema validation: 500. *)
Example post_tweet_too_long :
  ∀ c, 280 < utf16_length c →
       status (post_tweet alice (Some c) None "444444444444444444444444" 400 demo).2
       = 500.
Proof.
  intros c Hc. unfold post_tweet.
  destruct c as [|a c]; [vm_compute in Hc; lia|]. simpl content_errors.
  cbv iota.
  unfold try_catch, Tweet_insert, Tweet_validate, mbind, db_bind.
  cbn [Tweet.content default].
  rewrite (proj2 (Nat.leb_gt _ _)) by done. rewrite andb_false_r. done.
Qed.

(** The schema's bound counts UTF-16 code units, not bytes: 141 times the
    letter e with an acute accent (two bytes each, one code unit each) is
    282 bytes long and is accepted. *)
Example post_tweet_counts_code_units :
  let c := Nat.iter 141 (λ s, String (ascii_of_nat 195)
                                (String (ascii_of_nat 169) s)) "" in
  String.length c = 282 ∧ utf16_length c = 141
  ∧ status (post_tweet alice (Some c) None "444444444444444444444444" 400 demo).2
    = 200.
Proof. by vm_compute. Qed.

(** * Further properties *)

(** ** Routes that list tweets *)

Lemma get_replies_run id oid st :
  castObjectId id = Some oid →
  ∃ tjs, get_replies id st = (st, json (BTweets tjs))
    ∧ docs tjs
      = sort_newest (filter (λ t, Tweet.parent t = Some oid ∧ Tweet.isReply t = true)
                            (tweets st)).
Proof.
  intros Hc.
  unfold get_replies, try_catch, cast, get_tweets, mbind, db_bind, mret, db_ret.
  rewrite Hc.
  destruct (db_map_populate_user
              (sort_newest (filter (λ t, Tweet.parent t = Some oid
                                         ∧ Tweet.isReply t = true) (tweets st))) st)
    as (tjs & Hrun & Hd & _).
  exists tjs. rewrite Hrun. done.
Qed.

Lemma get_user_tweets_run userId uid st :
  castObjectId userId = Some uid →
  ∃ tjs, get_user_tweets userId st = (st, json (BTweets tjs))
    ∧ docs tjs
      = sort_newest (filter (λ t, Tweet.user t = uid ∧ Tweet.isReply t = false)
                            (tweets st)).
Proof.
  intros Hc.
  unfold get_user_tweets, try_catch, cast, get_tweets, mbind, db_bind, mret, db_ret.
  rewrite Hc.
  destruct (db_map_populate_user
              (sort_newest (filter (λ t, Tweet.user t = uid
                                         ∧ Tweet.isReply t = false) (tweets st))) st)
    as (tjs & Hrun & Hd & _).
  exists tjs. rewrite Hrun. done.
Qed.

Lemma elem_of_sort_newest t ts : t ∈ sort_newest ts ↔ t ∈ ts.
Proof. unfold sort_newest. by rewrite merge_sort_Permutation. Qed.



(** ** Routes that only read *)

(** X2.  The GET routes never write: whatever the request and whatever
    the answer (200, 404 or 500), the store after the request is the
    store before it. *)
Theorem get_routes_leave_store_unchanged me id q username st :
  (get_tweet id st).1 = st
  ∧ (get_timeline me q st).1 = st
  ∧ (get_replies id st).1 = st
  ∧ (get_user_tweets id st).1 = st
  ∧ (get_user_by_username username st).1 = st
  ∧ (get_suggestions me st).1 = st
  ∧ (∀ r, get_search q st = Some r → r.1 = st).
Proof.
  split; [|split; [|split; [|split; [|split; [|split]]]]].
  - unfold get_tweet. run_db. destruct (castObjectId id); simpl; [|done].
    destruct (find_tweet _ _); done.
  - unfold get_timeline, try_catch, get_tweets, skip, throw, limit,
      mbind, db_bind, mret, db_ret.
    destruct (_ <? 0)%Z; [done|].
    match goal with
    | |- context [db_map populate_user_parent ?l st] =>
      destruct (db_map_populate_user_parent l st) as (tjs & -> & _)
    end. done.
  - unfold get_replies, try_catch, cast, throw, get_tweets,
      mbind, db_bind, mret, db_ret.
    destruct (castObjectId id); [|done].
    match goal with
    | |- context [db_map populate_user ?l st] =>
      destruct (db_map_populate_user l st) as (tjs & -> & _)
    end. done.
  - unfold get_user_tweets, try_catch, cast, throw, get_tweets,
      mbind, db_bind, mret, db_ret.
    destruct (castObjectId id); [|done].
    match goal with
    | |- context [db_map populate_user ?l st] =>
      destruct (db_map_populate_user l st) as (tjs & -> & _)
    end. done.
  - unfold get_user_by_username, User_findOne_username. run_db.
    destruct (find _ _); done.
  - done.
  - intros r. unfold get_search.
    destruct q as [[|c q]|]; try (intros [= <-]; done).
    destruct (regex_compile _); [|intros [= <-]; done|done].
    unfold try_catch, get_users, get_tweets, limit, mbind, db_bind, mret, db_ret.
    match goal with
    | |- context [db_map populate_user ?l st] =>
      destruct (db_map_populate_user l st) as (tjs & -> & _)
    end. intros [= <-]. done.
Qed.

(** ** User by username *)

Lemma find_username_Some username us u :
  List.find (λ u, bool_decide (User.username u = username)) us = Some u →
  u ∈ us ∧ User.username u = username.
Proof.
  intros H. apply find_some in H. destruct H as [Hin Hn].
  apply bool_decide_eq_true in Hn. split; [by apply list_elem_of_In | done].
Qed.

Lemma find_username_None username us :
  List.find (λ u, bool_decide (User.username u = username)) us = None →
  ∀ u, u ∈ us → User.username u ≠ username.
Proof.
  intros H u Hin%list_elem_of_In. pose proof (find_none _ _ H u Hin) as Hf.
  simpl in Hf. by apply bool_decide_eq_false in Hf.
Qed.

(** X3.  The user-by-username route answers 404 exactly when no stored
    user has that username (compared exactly, case included) and 200
    otherwise; a 200 answer is a stored user with that username, with
    password and email excluded. *)
Theorem user_by_username_found_or_404 username st :
  let r := (get_user_by_username username st).2 in
  (status r = 404 ↔ ∀ u, u ∈ users st → User.username u ≠ username)
  ∧ (status r = 200 ↔ ∃ u, u ∈ users st ∧ User.username u = username)
  ∧ (status r = 404 ∨ status r = 200)
  ∧ (status r = 200 →
     ∃ u, u ∈ users st ∧ User.username u = username
          ∧ body r = BUser (Some (select_minus_password_email u))
          ∧ uj_password (select_minus_password_email u) = None
          ∧ uj_email (select_minus_password_email u) = None).
Proof.
  unfold get_user_by_username, User_findOne_username. run_db.
  destruct (find _ _) as [u|] eqn:Hf; simpl.
  - apply find_username_Some in Hf as [Hin Hn].
    split; [split; [done|intros H; by destruct (H u Hin)]|].
    split; [split; [eauto|done]|]. split; [by right|]. intros _. eauto 10.
  - pose proof (find_username_None _ _ Hf) as Hnone.
    split; [done|]. split; [split; [done|intros (u & Hin & Hn); by destruct (Hnone u Hin)]|].
    split; [by left|done].
Qed.

(** ** Suggestions *)

(** X4.  The suggestions handler answers with at most 5 users, taken in
    store order from the stored users that are neither the caller nor
    followed by the caller, password and email excluded; when at most 5
    such users exist, all of them are in the answer. *)
Theorem suggestions_exclude_caller_and_followed me st :
  let candidates :=
    filter (λ u, User._id u ≠ User.id me ∧ (User._id u ∉ User.following me))
           (users st) in
  ∃ us, get_suggestions me st = (st, inl us)
    ∧ us = select_minus_password_email <$> take 5 candidates
    ∧ length us ≤ 5
    ∧ (∀ uj, uj ∈ us →
         uj_id uj ≠ User.id me ∧ (uj_id uj ∉ User.following me)
         ∧ uj_password uj = None ∧ uj_email uj = None
         ∧ ∃ u, u ∈ users st ∧ uj = select_minus_password_email u)
    ∧ (length candidates ≤ 5 →
       ∀ u, u ∈ users st → User._id u ≠ User.id me →
            User._id u ∉ User.following me →
            select_minus_password_email u ∈ us).
Proof.
  intros candidates. eexists. split.
  { unfold get_suggestions, get_users, limit, mbind, db_bind, mret, db_ret.
    rewrite (list_filter_iff _
      (λ u, User._id u ≠ User.id me ∧ (User._id u ∉ User.following me))).
    - reflexivity.
    - intros u. rewrite not_elem_of_app, list_elem_of_singleton. tauto. }
  fold candidates. split; [done|].
  split; [rewrite length_fmap, length_take; lia|]. split.
  - intros uj (u & -> & Hu)%list_elem_of_fmap.
    apply elem_of_take in Hu as (i & Hu & _).
    apply list_elem_of_lookup_2 in Hu.
    apply list_elem_of_filter in Hu as [[H1 H2] Hin].
    repeat split; try done. eauto.
  - intros Hlen u Hin H1 H2. apply list_elem_of_fmap. exists u. split; [done|].
    rewrite take_ge by done. apply list_elem_of_filter. done.
Qed.

(** ** Route tables *)

Ltac route_step :=
  cbn [dispatch match_path fmap option_fmap option_map];
  repeat (rewrite ?decide_True by done; rewrite ?decide_False by done).

Ltac route_cases :=
  repeat (route_step;
          match goal with
          | |- context [String.eqb ?a ?b] => destruct (String.eqb a b) eqn:?
          end);
  route_step.

(** X5.  In [users.js] the route [GET /:username] is registered before
    [GET /suggestions]: the path [/suggestions] is handled as a lookup of
    the username ["suggestions"], and no request, of any method and path,
    reaches the suggestions handler.  [GET /me], registered first, is
    served by the current-user handler, so every other one-segment path
    is a username lookup. *)
Theorem users_suggestions_route_is_shadowed :
  dispatch users_routes GET ["suggestions"] = Some (GetByUsername "suggestions")
  ∧ (∀ m path, dispatch users_routes m path ≠ Some GetSuggestions)
  ∧ (∀ seg, toLowerCase seg = "me" → dispatch users_routes GET [seg] = Some GetMe)
  ∧ (∀ seg, toLowerCase seg ≠ "me" →
       dispatch users_routes GET [seg] = Some (GetByUsername seg)).
Proof.
  split; [done|]. split; [|split].
  - intros m path. unfold users_routes.
    destruct m; destruct path as [|s1 [|s2 [|s3 rest]]]; route_cases; done.
  - intros seg Hseg. unfold users_routes. route_step.
    rewrite Hseg. done.
  - intros seg Hseg. unfold users_routes. route_step.
    destruct (String.eqb_spec (toLowerCase "me") (toLowerCase seg)) as [e|n];
      [by destruct Hseg|].
    route_step. done.
Qed.

(** X6.  In [tweets.js] the route [GET /:id/replies] is registered
    before [GET /user/:userId]: a two-segment path [/user/x] lists the
    tweets of user [x], except when [x] is ["replies"] (in any case), which
    asks for the replies to the identifier ["user"]; and a one-segment GET
    path is always the read by identifier. *)
Theorem tweets_routes_order :
  (∀ x, toLowerCase x ≠ "replies" →
        dispatch tweets_routes GET ["user"; x] = Some (GetUserTweets x))
  ∧ (∀ x, toLowerCase x = "replies" →
          dispatch tweets_routes GET ["user"; x] = Some (GetReplies "user"))
  ∧ (∀ seg, dispatch tweets_routes GET [seg] = Some (GetTweet seg))
  ∧ (∀ id, dispatch tweets_routes POST [id; "like"] = Some (PostLike id)
           ∧ dispatch tweets_routes POST [id; "retweet"] = Some (PostRetweet id)
           ∧ dispatch tweets_routes POST [id; "reply"] = Some (PostReply id)
           ∧ dispatch tweets_routes DELETE [id] = Some (DeleteTweet id)).
Proof.
  split; [|split; [|split]].
  - intros x Hx. unfold tweets_routes. route_step.
    destruct (String.eqb_spec (toLowerCase "replies") (toLowerCase x)) as [e|n];
      [by destruct Hx|].
    route_step. done.
  - intros x Hx. unfold tweets_routes. route_step. rewrite Hx. done.
  - intros seg. done.
  - intros id. repeat split.
Qed.

(** ** Image routes *)

Lemma set_image_id field path u : User._id (set_image field path u) = User._id u.
Proof. by destruct field. Qed.

Lemma touch_set_image_id now field path u :
  User._id (touch now (set_image field path) u) = User._id u.
Proof. apply touch_id. intros. apply set_image_id. Qed.

Lemma put_profile_image_run me filename now st :
  authenticated st me →
  put_profile_image me (Some filename) now st =
    (set_users ((λ u, if decide (User._id u = User.id me)
                      then touch now (set_image ProfileImage ("/uploads/" ++ filename)) u
                      else u) <$> users st) st,
     json (BUser (Some (select_minus_password
                          (touch now (set_image ProfileImage ("/uploads/" ++ filename)) me))))).
Proof.
  intros [Hcid Hme]. unfold is_id_text in Hcid. unfold auth in Hme.
  unfold put_profile_image, User_findByIdAndUpdate_image. run_db.
  rewrite Hcid. simpl. rewrite Hme. done.
Qed.

Lemma put_cover_image_run me filename now st :
  authenticated st me →
  put_cover_image me (Some filename) now st =
    (set_users ((λ u, if decide (User._id u = User.id me)
                      then touch now (set_image CoverImage ("/uploads/" ++ filename)) u
                      else u) <$> users st) st,
     json (BUser (Some (select_minus_password
                          (touch now (set_image CoverImage ("/uploads/" ++ filename)) me))))).
Proof.
  intros [Hcid Hme]. unfold is_id_text in Hcid. unfold auth in Hme.
  unfold put_cover_image, User_findByIdAndUpdate_image. run_db.
  rewrite Hcid. simpl. rewrite Hme. done.
Qed.

(** X7.  For an authenticated caller: without an uploaded file the two
    image routes answer 400 and write nothing; with a file, at clock
    reading [now], the profile-image route stores [/uploads/<filename>] as
    the caller's profile image and the cover-image route as the cover
    image, each also setting the caller's update timestamp to [now] and
    leaving the other image, every other field of the caller (identifier,
    username, email, password, name, bio, location, website, both lists,
    creation time), every other user and all tweets as they were; each
    answers 200 with the updated record, password excluded. *)
Theorem image_routes_change_one_field me file now st :
  authenticated st me →
  (file = None →
     put_profile_image me file now st
       = (st, status_json 400 (BMessage "No file uploaded"))
     ∧ put_cover_image me file now st
       = (st, status_json 400 (BMessage "No file uploaded")))
  ∧ (∀ filename, file = Some filename →
     let path := "/uploads/" ++ filename in
     let stp := (put_profile_image me file now st).1 in
     let stc := (put_cover_image me file now st).1 in
     ∃ mp mc,
       find_user (User.id me) (users stp) = Some mp
       ∧ find_user (User.id me) (users stc) = Some mc
       ∧ User.profileImage mp = path
       ∧ User.coverImage mp = User.coverImage me
       ∧ User.coverImage mc = path
       ∧ User.profileImage mc = User.profileImage me
       ∧ User.updatedAt mp = now ∧ User.updatedAt mc = now
       ∧ (∀ m, m = mp ∨ m = mc →
            User._id m = User._id me
            ∧ User.username m = User.username me
            ∧ User.email m = User.email me
            ∧ User.password m = User.password me
            ∧ User.name m = User.name me
            ∧ User.bio m = User.bio me
            ∧ User.location m = User.location me
            ∧ User.website m = User.website me
            ∧ User.followers m = User.followers me
            ∧ User.following m = User.following me
            ∧ User.createdAt m = User.createdAt me)
       ∧ (put_profile_image me file now st).2
           = json (BUser (Some (select_minus_password mp)))
       ∧ (put_cover_image me file now st).2
           = json (BUser (Some (select_minus_password mc)))
       ∧ uj_password (select_minus_password mp) = None
       ∧ uj_password (select_minus_password mc) = None
       ∧ tweets stp = tweets st ∧ tweets stc = tweets st
       ∧ (∀ oid, oid ≠ User.id me →
            find_user oid (users stp) = find_user oid (users st)
            ∧ find_user oid (users stc) = find_user oid (users st))).
Proof.
  intros Hauth. pose proof Hauth as [Hcid Hme]. unfold auth in Hme.
  pose proof (find_user_Some _ _ _ Hme) as [Hmid _].
  split.
  - intros ->. split; [unfold put_profile_image | unfold put_cover_image];
      run_db; by destruct st.
  - intros filename -> path stp stc. unfold stp, stc.
    rewrite put_profile_image_run, put_cover_image_run by done.
    cbn [fst snd set_users users tweets]. fold path.
    exists (touch now (set_image ProfileImage path) me),
           (touch now (set_image CoverImage path) me).
    rewrite !(find_user_update _ _ (touch now (set_image _ _)))
      by (intros; apply touch_set_image_id).
    rewrite Hme. cbn [fmap option_fmap option_map]. rewrite !decide_True by done.
    split; [done|]. split; [done|]. split; [done|]. split; [done|].
    split; [done|]. split; [done|]. split; [done|]. split; [done|].
    split; [by intros m [-> | ->]|].
    split; [done|]. split; [done|]. split; [done|]. split; [done|].
    split; [done|]. split; [done|]. intros oid Hne. split.
    + rewrite (find_user_update _ _ (touch now (set_image _ _)))
        by (intros; apply touch_set_image_id).
      destruct (find_user oid (users st)) as [u|] eqn:Hu; [|done]. simpl.
      apply find_user_Some in Hu as [Hu _]. by rewrite decide_False by congruence.
    + rewrite (find_user_update _ _ (touch now (set_image _ _)))
        by (intros; apply touch_set_image_id).
      destruct (find_user oid (users st)) as [u|] eqn:Hu; [|done]. simpl.
      apply find_user_Some in Hu as [Hu _]. by rewrite decide_False by congruence.
Qed.

Lemma image_routes_change_one_field_witness :
  (∃ mp, find_user alice_id
           (users (put_profile_image alice (Some "a.png") 500 demo).1) = Some mp
         ∧ User.profileImage mp = "/uploads/a.png"
         ∧ User.updatedAt mp = 500%Z)
  ∧ status (put_cover_image alice None 500 demo).2 = 400.
Proof.
  assert (Ha : authenticated demo alice) by (split; reflexivity).
  destruct (image_routes_change_one_field alice (Some "a.png") 500 demo Ha)
    as [_ Hsome].
  destruct (image_routes_change_one_field alice None 500 demo Ha) as [Hnone _].
  split.
  - destruct (Hsome "a.png" eq_refl) as (mp & _ & Hf & _ & Hp & _ & _ & _ & Hu & _).
    exists mp. split; [exact Hf|]. split; [exact Hp | exact Hu].
  - destruct (Hnone eq_refl) as [_ ->]. reflexivity.
Defined.

Lemma put_image_store me filename now st :
  is_id_text (User.id me) →
  (put_profile_image me (Some filename) now st).1
  = set_users ((λ u, if decide (User._id u = User.id me)
                     then touch now (set_image ProfileImage ("/uploads/" ++ filename)) u
                     else u) <$> users st) st
  ∧ (put_cover_image me (Some filename) now st).1
  = set_users ((λ u, if decide (User._id u = User.id me)
                     then touch now (set_image CoverImage ("/uploads/" ++ filename)) u
                     else u) <$> users st) st.
Proof.
  intros Hcid. unfold is_id_text in Hcid.
  unfold put_profile_image, put_cover_image, User_findByIdAndUpdate_image.
  run_db. rewrite Hcid. done.
Qed.

(** X8.  The two image updates commute: for a caller with a well-formed
    identifier, setting the profile image and then the cover image leaves
    the same store as setting the cover image and then the profile
    image, the first request of either order being served at clock reading
    [n1] and the second at [n2]. *)
Theorem image_updates_commute me f g n1 n2 st :
  is_id_text (User.id me) →
  (put_cover_image me (Some g) n2 (put_profile_image me (Some f) n1 st).1).1
  = (put_profile_image me (Some f) n2 (put_cover_image me (Some g) n1 st).1).1.
Proof.
  intros Hcid.
  rewrite (proj2 (put_image_store me g n2 _ Hcid)).
  rewrite (proj1 (put_image_store me f n1 _ Hcid)).
  rewrite (proj2 (put_image_store me g n1 _ Hcid)).
  rewrite (proj1 (put_image_store me f n2 _ Hcid)).
  unfold set_users. cbn [users tweets]. f_equal.
  rewrite <- !list_fmap_compose. apply list_fmap_ext. intros _ u _.
  cbn [compose].
  destruct (decide (User._id u = User.id me)) as [e|n].
  - rewrite !decide_True by (by rewrite touch_set_image_id). done.
  - rewrite !decide_False by done. done.
Qed.

Lemma image_updates_commute_witness :
  (put_cover_image alice (Some "c.png") 600
     (put_profile_image alice (Some "p.png") 500 demo).1).1
  = (put_profile_image alice (Some "p.png") 600
       (put_cover_image alice (Some "c.png") 500 demo).1).1.
Proof.
  apply (image_updates_commute alice "p.png" "c.png" 500 600 demo).
  reflexivity.
Defined.

(** ** Content checks of create and reply *)

Lemma post_tweet_nonempty me a c file fresh now st :
  post_tweet me (Some (String a c)) file fresh now st =
    if utf16_length (String a c) <=? 280
    then (set_tweets
            (tweets st ++ [Tweet.mk fresh (User.id me) (String a c)
                             (image_path file) [] [] None false now])%list st,
          json (BTweet (mkTweetJson
                  (Tweet.mk fresh (User.id me) (String a c)
                     (image_path file) [] [] None false now)
                  (Some (card <$> find_user (User.id me) (users st))) None)))
    else (st, status_send 500 "Server error").
Proof.
  unfold post_tweet. cbn [content_errors].
  unfold try_catch, Tweet_insert, Tweet_validate, mbind, db_bind.
  cbn [Tweet.content default from_option id String.eqb negb andb].
  destruct (utf16_length (String a c) <=? 280); [|done].
  unfold get_tweets, put_tweets, populate_user, get_users,
    mbind, db_bind, mret, db_ret.
  done.
Qed.


(** ** Create, reply and reading back *)

Lemma post_reply_nonempty me id oid p a c file fresh now st :
  castObjectId id = Some oid →
  find_tweet oid (tweets st) = Some p →
  utf16_length (String a c) ≤ 280 →
  post_reply me id (Some (String a c)) file fresh now st =
    (set_tweets
       (tweets st ++ [Tweet.mk fresh (User.id me) (String a c)
                        (image_path file) [] [] (Some oid) true now])%list st,
     json (BTweet (mkTweetJson
             (Tweet.mk fresh (User.id me) (String a c)
                (image_path file) [] [] (Some oid) true now)
             (Some (card <$> find_user (User.id me) (users st))) None))).
Proof.
  intros Hc Hf Hlen. unfold post_reply. cbn [content_errors].
  unfold try_catch, Tweet_findById, cast, Tweet_insert, Tweet_validate,
    get_tweets, mbind, db_bind, mret, db_ret.
  rewrite Hc. cbn [from_option default Datatypes.id]. rewrite Hf.
  cbn [Tweet.content String.eqb negb andb].
  rewrite (proj2 (Nat.leb_le _ _)) by done.
  unfold get_tweets, put_tweets, populate_user, get_users,
    mbind, db_bind, mret, db_ret.
  done.
Qed.

Lemma find_tweet_app_fresh oid ts t :
  (∀ t0, t0 ∈ ts → Tweet._id t0 ≠ oid) → Tweet._id t = oid →
  find_tweet oid (ts ++ [t]) = Some t.
Proof.
  intros Hfresh Hid. induction ts as [|t0 ts IH]; simpl.
  - by rewrite bool_decide_eq_true_2.
  - rewrite bool_decide_eq_false_2 by (apply Hfresh; left).
    apply IH. intros t1 Hin. apply Hfresh. by right.
Qed.

(** In a list sorted newest first, an element strictly newer than every
    other element is the head. *)
Lemma newest_is_head t l :
  StronglySorted newer l → t ∈ l →
  (∀ t0, t0 ∈ l → t0 ≠ t → (Tweet.createdAt t0 < Tweet.createdAt t)%Z) →
  head l = Some t.
Proof.
  intros Hs Hin Hnew. destruct l as [|x l]; [by apply elem_of_nil in Hin|].
  simpl. f_equal. destruct (decide (x = t)) as [|Hne]; [done|].
  apply elem_of_cons in Hin as [->|Hin]; [done|].
  apply StronglySorted_inv in Hs as [_ Hall].
  rewrite Forall_forall in Hall. specialize (Hall t Hin). unfold newer in Hall.
  specialize (Hnew x (ltac:(left)) Hne). lia.
Qed.

(** X10.  After a reply with valid content to an existing tweet, the
    replies route for that tweet lists the new reply (one tweet more than
    before); the reply is on no user's timeline and in no user's tweet
    list, since both keep non-replies only. *)
Theorem reply_is_listed_under_its_parent me id oid p c file fresh now st :
  castObjectId id = Some oid →
  find_tweet oid (tweets st) = Some p →
  c ≠ "" → utf16_length c ≤ 280 →
  let st' := (post_reply me id (Some c) file fresh now st).1 in
  let reply := Tweet.mk fresh (User.id me) c (image_path file) [] []
                 (Some oid) true now in
  tweets st' = (tweets st ++ [reply])%list
  ∧ (∃ before after,
       get_replies id st = (st, json (BTweets before))
       ∧ get_replies id st' = (st', json (BTweets after))
       ∧ reply ∈ docs after
       ∧ length after = S (length before))
  ∧ (∀ u, ¬ eligible u reply)
  ∧ (∀ uid tjs, get_user_tweets uid st' = (st', json (BTweets tjs)) →
                reply ∉ docs tjs).
Proof.
  intros Hc Hf Hne Hlen st' reply.
  destruct c as [|a c]; [done|].
  assert (Hst : st' = set_tweets (tweets st ++ [reply])%list st).
  { unfold st'. by erewrite post_reply_nonempty. }
  split; [by rewrite Hst|]. split; [|split].
  - destruct (get_replies_run id oid st Hc) as (before & Hb & Hdb).
    destruct (get_replies_run id oid st' Hc) as (after & Ha & Hda).
    exists before, after. split; [done|]. split; [done|].
    rewrite Hst in Hda. cbn [tweets set_tweets] in Hda.
    rewrite filter_app in Hda.
    rewrite (filter_cons_True _ reply) in Hda by done.
    split.
    + rewrite Hda, elem_of_sort_newest, elem_of_app. right. left.
    + rewrite <- (length_fmap tj_doc after), <- (length_fmap tj_doc before).
      fold (docs after) (docs before). rewrite Hda, Hdb.
      unfold sort_newest. rewrite !merge_sort_Permutation.
      rewrite length_app. simpl. lia.
  - intros u [Hrep _]. done.
  - intros uid tjs Hrun.
    unfold get_user_tweets, try_catch, cast, throw, get_tweets,
      mbind, db_bind, mret, db_ret in Hrun.
    destruct (castObjectId uid) as [uoid|] eqn:Hu; [|done].
    destruct (get_user_tweets_run uid uoid st' Hu) as (tjs' & Hrun' & Hd).
    unfold get_user_tweets, try_catch, cast, throw, get_tweets,
      mbind, db_bind, mret, db_ret in Hrun'.
    rewrite Hu in Hrun'. rewrite Hrun' in Hrun.
    injection Hrun as <-. rewrite Hd, elem_of_sort_newest, list_elem_of_filter.
    intros [[_ Hrep] _]. done.
Qed.

Lemma reply_is_listed_under_its_parent_witness :
  ∃ after, get_replies tweet3_id
             (post_reply alice tweet3_id (Some "nice") None
                "444444444444444444444444" 400 demo).1
           = ((post_reply alice tweet3_id (Some "nice") None
                 "444444444444444444444444" 400 demo).1,
              json (BTweets after))
           ∧ length after = 1.
Proof.
  destruct (reply_is_listed_under_its_parent alice tweet3_id tweet3_id tweet3
              "nice" None "444444444444444444444444" 400%Z demo
              eq_refl eq_refl) as (_ & (before & after & Hb & Ha & _ & Hl) & _).
  - done.
  - vm_compute. lia.
  - exists after. split; [exact Ha|]. rewrite Hl. f_equal.
    assert (Hbefore : get_replies tweet3_id demo = (demo, json (BTweets [])))
      by reflexivity.
    rewrite Hbefore in Hb. by injection Hb as <-.
Defined.

(** X11.  After the create route has stored a tweet with valid content
    under a fresh, well-formed identifier, the read by identifier answers
    200 with that tweet and its author expanded as stored; and when the
    clock reading is later than the creation time of every stored tweet,
    the new tweet is the first one on page 1 of its author's timeline. *)
Theorem created_tweet_is_read_back_and_tops_timeline me c file fresh now st :
  c ≠ "" → utf16_length c ≤ 280 →
  is_id_text fresh →
  (∀ t0, t0 ∈ tweets st → Tweet._id t0 ≠ fresh) →
  let st' := (post_tweet me (Some c) file fresh now st).1 in
  let t := Tweet.mk fresh (User.id me) c (image_path file) [] [] None false now in
  (∃ tj, get_tweet fresh st' = (st', json (BTweet tj))
         ∧ tj_doc tj = t
         ∧ tj_user tj = Some (card <$> find_user (User.id me) (users st)))
  ∧ ((∀ t0, t0 ∈ tweets st → (Tweet.createdAt t0 < now)%Z) →
     ∃ tjs, get_timeline me None st' = (st', json (BTweets tjs))
            ∧ head (docs tjs) = Some t).
Proof.
  intros Hne Hlen Hfid Hfresh st' t. destruct c as [|a c]; [done|].
  assert (Hst : st' = set_tweets (tweets st ++ [t])%list st).
  { unfold st'. rewrite post_tweet_nonempty.
    by rewrite (proj2 (Nat.leb_le _ _)) by done. }
  assert (Hfind : find_tweet fresh (tweets st') = Some t).
  { rewrite Hst. cbn [tweets set_tweets]. by apply find_tweet_app_fresh. }
  split.
  - unfold get_tweet. run_db. rewrite Hfid. simpl. rewrite Hfind.
    eexists. split; [reflexivity|]. split; [done|]. simpl. by rewrite Hst.
  - intros Hclock.
    destruct (get_timeline_run me None st') as (tjs & Hrun & Hd & _); [done|].
    exists tjs. split; [done|]. unfold docs. rewrite Hd.
    change (Z.to_nat ((or_one (parseInt None) - 1) * 10)) with 0. rewrite drop_0.
    destruct (sort_newest_spec (filter (eligible me) (tweets st'))) as [Hs Hp].
    assert (Hhead : head (sort_newest (filter (eligible me) (tweets st'))) = Some t).
    { apply newest_is_head; [done| |].
      - rewrite Hp, list_elem_of_filter. split.
        + split; [done|]. by left.
        + rewrite Hst. cbn [tweets set_tweets]. apply elem_of_app. right. left.
      - intros t0. rewrite Hp, list_elem_of_filter, Hst. cbn [tweets set_tweets].
        intros [_ [Hin|Hin%list_elem_of_singleton]%elem_of_app] Hneq; [|done].
        by apply Hclock. }
    destruct (sort_newest (filter (eligible me) (tweets st'))); [done|].
    exact Hhead.
Qed.

Lemma created_tweet_is_read_back_and_tops_timeline_witness :
  ∃ tjs, get_timeline alice None
           (post_tweet alice (Some "hi") None "444444444444444444444444" 400 demo).1
         = ((post_tweet alice (Some "hi") None "444444444444444444444444" 400 demo).1,
            json (BTweets tjs))
         ∧ head (docs tjs)
           = Some (Tweet.mk "444444444444444444444444" alice_id "hi" None [] []
                     None false 400).
Proof.
  destruct (created_tweet_is_read_back_and_tops_timeline alice "hi" None
              "444444444444444444444444" 400%Z demo) as [_ H].
  - done.
  - vm_compute. lia.
  - reflexivity.
  - intros t0 Hin. apply list_elem_of_In in Hin. simpl in Hin.
    destruct Hin as [<-|[<-|[<-|[]]]]; by vm_compute.
  - apply H. intros t0 Hin. apply list_elem_of_In in Hin. simpl in Hin.
    destruct Hin as [<-|[<-|[<-|[]]]]; by vm_compute.
Defined.

(** ** After a delete *)

Lemma delete_tweet_by_owner me id oid t st :
  castObjectId id = Some oid →
  find_tweet oid (tweets st) = Some t →
  Tweet.user t = User.id me →
  delete_tweet me id st
  = (set_tweets (filter (λ t0, Tweet._id t0 ≠ oid) (tweets st)) st,
     json (BMessage "Tweet removed")).
Proof.
  intros Hc Hf Hown. pose proof (find_tweet_Some _ _ _ Hf) as [Hid _].
  unfold delete_tweet. run_db. rewrite Hc. simpl. rewrite Hf.
  rewrite decide_False by (intros H; by apply H). simpl. by rewrite Hid.
Qed.

(** X12.  Once its owner has deleted a tweet, a second delete and every
    like, retweet and reply on the same identifier are answered 404 and
    write nothing, while the replies route for that identifier still
    answers 200 and still lists every reply the tweet had: the replies
    stay in the collection as orphans. *)
Theorem deleted_tweet_is_gone_but_replies_stay me id oid t st :
  castObjectId id = Some oid →
  find_tweet oid (tweets st) = Some t →
  Tweet.user t = User.id me →
  let st' := (delete_tweet me id st).1 in
  (∀ u, delete_tweet u id st' = (st', status_json 404 (BMessage "Tweet not found"))
        ∧ post_like u id st' = (st', status_json 404 (BMessage "Tweet not found"))
        ∧ post_retweet u id st'
          = (st', status_json 404 (BMessage "Tweet not found"))
        ∧ ∀ c file fresh now, c ≠ "" →
            post_reply u id (Some c) file fresh now st'
            = (st', status_json 404 (BMessage "Tweet not found")))
  ∧ (∃ tjs, get_replies id st' = (st', json (BTweets tjs))
            ∧ ∀ r, r ∈ tweets st → Tweet.parent r = Some oid →
                   Tweet.isReply r = true → Tweet._id r ≠ oid → r ∈ docs tjs).
Proof.
  intros Hc Hf Hown st'.
  assert (Hst : st' = set_tweets (filter (λ t0, Tweet._id t0 ≠ oid) (tweets st)) st).
  { unfold st'. by erewrite delete_tweet_by_owner. }
  assert (Hgone : find_tweet oid (tweets st') = None).
  { rewrite Hst. apply find_tweet_deleted. }
  split.
  - intros u. unfold delete_tweet, post_like, post_retweet. run_db.
    rewrite Hc. simpl. rewrite Hgone.
    split; [by destruct st'|]. split; [by destruct st'|]. split; [by destruct st'|].
    intros c file fresh now Hne. destruct c as [|a c]; [done|].
    unfold post_reply. cbn [content_errors]. run_db. rewrite Hc. simpl.
    rewrite Hgone. by destruct st'.
  - destruct (get_replies_run id oid st' Hc) as (tjs & Hrun & Hd).
    exists tjs. split; [done|]. intros r Hin Hp Hr Hne.
    rewrite Hd, elem_of_sort_newest, list_elem_of_filter. split; [done|].
    rewrite Hst. cbn [tweets set_tweets]. by apply list_elem_of_filter.
Qed.

Lemma deleted_tweet_is_gone_but_replies_stay_witness :
  status (post_like alice tweet1_id (delete_tweet bob tweet1_id demo).1).2 = 404
  ∧ ∃ tjs, get_replies tweet1_id (delete_tweet bob tweet1_id demo).1
           = ((delete_tweet bob tweet1_id demo).1, json (BTweets tjs))
           ∧ tweet2 ∈ docs tjs.
Proof.
  destruct (deleted_tweet_is_gone_but_replies_stay bob tweet1_id tweet1_id tweet1
              demo eq_refl eq_refl eq_refl) as [Hgone (tjs & Hrun & Hin)].
  split.
  - destruct (Hgone alice) as (_ & -> & _). reflexivity.
  - exists tjs. split; [exact Hrun|]. apply Hin; [right; left|done|done|by vm_compute].
Defined.

(** ** Like and retweet: what they leave alone *)

Lemma elem_of_toggled_other (u v : string) l :
  v ≠ u → v ∈ toggled u l ↔ v ∈ l.
Proof.
  intros Hne. unfold toggled. destruct (decide (u ∈ l)).
  - rewrite list_elem_of_filter. tauto.
  - rewrite elem_of_cons. tauto.
Qed.

(** X13.  What a like and a retweet leave alone.  A like of an existing
    tweet leaves its identifier, author, content, image, retweets list,
    parent, reply flag and creation time as they were, and a retweet
    likewise with the likes list in place of the retweets list; both leave
    the users, the number of tweets and every tweet with another
    identifier as before, and the membership of every other user in the
    toggled list.  (The update timestamp and the version key that a save
    rewrites are not fields of the record here and the statement says
    nothing about them.) *)
Theorem like_and_retweet_change_one_list me id oid t st :
  castObjectId id = Some oid →
  find_tweet oid (tweets st) = Some t →
  let sl := (post_like me id st).1 in
  let sr := (post_retweet me id st).1 in
  let same_but_lists := λ t' : Tweet.doc,
    Tweet._id t' = Tweet._id t ∧ Tweet.user t' = Tweet.user t
    ∧ Tweet.content t' = Tweet.content t ∧ Tweet.image t' = Tweet.image t
    ∧ Tweet.parent t' = Tweet.parent t ∧ Tweet.isReply t' = Tweet.isReply t
    ∧ Tweet.createdAt t' = Tweet.createdAt t in
  users sl = users st ∧ users sr = users st
  ∧ length (tweets sl) = length (tweets st)
  ∧ length (tweets sr) = length (tweets st)
  ∧ (∀ oid', oid' ≠ oid →
       find_tweet oid' (tweets sl) = find_tweet oid' (tweets st)
       ∧ find_tweet oid' (tweets sr) = find_tweet oid' (tweets st))
  ∧ (∃ t', find_tweet oid (tweets sl) = Some t'
          ∧ same_but_lists t'
          ∧ Tweet.retweets t' = Tweet.retweets t
          ∧ ∀ v, v ≠ User.id me → (v ∈ Tweet.likes t' ↔ v ∈ Tweet.likes t))
  ∧ (∃ t', find_tweet oid (tweets sr) = Some t'
          ∧ same_but_lists t'
          ∧ Tweet.likes t' = Tweet.likes t
          ∧ ∀ v, v ≠ User.id me →
                 (v ∈ Tweet.retweets t' ↔ v ∈ Tweet.retweets t)).
Proof.
  intros Hc Hf sl sr same. pose proof (find_tweet_Some _ _ _ Hf) as [Hid _].
  unfold sl, sr. rewrite (post_like_run me id oid t st Hc Hf).
  rewrite (post_retweet_run me id oid t st Hc Hf). cbn [fst users tweets set_tweets].
  split; [done|]. split; [done|].
  split; [by rewrite length_fmap|]. split; [by rewrite length_fmap|].
  split; [|split].
  - intros oid' Hne. rewrite !find_tweet_replace by done.
    destruct (find_tweet oid' (tweets st)) as [t0|] eqn:Hf0; [|done].
    apply find_tweet_Some in Hf0 as [Hid0 _]. simpl.
    rewrite !decide_False by congruence. done.
  - eexists. rewrite find_tweet_replace by done. rewrite Hf. simpl.
    rewrite decide_True by done. split; [done|]. split; [by unfold same|].
    split; [done|]. intros v Hv. by apply elem_of_toggled_other.
  - eexists. rewrite find_tweet_replace by done. rewrite Hf. simpl.
    rewrite decide_True by done. split; [done|]. split; [by unfold same|].
    split; [done|]. intros v Hv. by apply elem_of_toggled_other.
Qed.

Lemma like_and_retweet_change_one_list_witness :
  retweets_of tweet3_id (post_like alice tweet3_id demo).1 = Some [alice_id]
  ∧ likes_of tweet3_id (post_retweet alice tweet3_id demo).1 = Some [bob_id].
Proof.
  destruct (like_and_retweet_change_one_list alice tweet3_id tweet3_id tweet3 demo
              eq_refl eq_refl)
    as (_ & _ & _ & _ & _ & (l & Hl & _ & Hlr & _) & (l' & Hr & _ & Hrl & _)).
  unfold retweets_of, likes_of. rewrite Hl, Hr. simpl. rewrite Hlr, Hrl.
  split; reflexivity.
Defined.

(** X14.  Like and retweet commute: on an existing tweet, a like followed
    by a retweet of the same caller leaves the same store as the retweet
    followed by the like. *)
Theorem like_and_retweet_commute me id oid t st :
  castObjectId id = Some oid →
  find_tweet oid (tweets st) = Some t →
  (post_retweet me id (post_like me id st).1).1
  = (post_like me id (post_retweet me id st).1).1.
Proof.
  intros Hc Hf. pose proof (find_tweet_Some _ _ _ Hf) as [Hid _].
  set (tl := Tweet.set_likes (toggled (User.id me) (Tweet.likes t)) t).
  set (tr := Tweet.set_retweets (toggled (User.id me) (Tweet.retweets t)) t).
  assert (Hfl : find_tweet oid (tweets (post_like me id st).1) = Some tl).
  { rewrite (post_like_run me id oid t st Hc Hf). cbn [fst tweets set_tweets].
    rewrite find_tweet_replace by done. rewrite Hf. simpl.
    by rewrite decide_True. }
  assert (Hfr : find_tweet oid (tweets (post_retweet me id st).1) = Some tr).
  { rewrite (post_retweet_run me id oid t st Hc Hf). cbn [fst tweets set_tweets].
    rewrite find_tweet_replace by done. rewrite Hf. simpl.
    by rewrite decide_True. }
  rewrite (post_retweet_run me id oid tl _ Hc Hfl).
  rewrite (post_like_run me id oid tr _ Hc Hfr).
  rewrite (post_like_run me id oid t st Hc Hf).
  rewrite (post_retweet_run me id oid t st Hc Hf).
  cbn [fst users tweets set_tweets]. unfold set_tweets. cbn [users]. f_equal.
  rewrite <- !list_fmap_compose. apply list_fmap_ext. intros _ t0 _.
  cbn [compose]. destruct (decide (Tweet._id t0 = oid)) as [e|n].
  - rewrite !decide_True by done. done.
  - rewrite !decide_False by done. done.
Qed.

Lemma like_and_retweet_commute_witness :
  (post_retweet alice tweet1_id (post_like alice tweet1_id demo).1).1
  = (post_like alice tweet1_id (post_retweet alice tweet1_id demo).1).1.
Proof.
  exact (like_and_retweet_commute alice tweet1_id tweet1_id tweet1 demo
           eq_refl eq_refl).
Defined.

(** ** Retweets and the timeline *)

(** Whatever the page parameter, a timeline answer carries only stored
    tweets that are eligible for the caller. *)
Lemma get_timeline_docs me q st st' tjs :
  get_timeline me q st = (st', json (BTweets tjs)) →
  ∀ x, x ∈ docs tjs → x ∈ tweets st ∧ eligible me x.
Proof.
  intros Hrun x Hx.
  destruct (Z_lt_le_dec (or_one (parseInt q)) 1) as [Hlt|Hge].
  - unfold get_timeline, try_catch, get_tweets, skip, throw, limit,
      mbind, db_bind, mret, db_ret in Hrun.
    replace ((or_one (parseInt q) - 1) * Z.of_nat 10 <? 0)%Z with true in Hrun
      by (symmetry; apply Z.ltb_lt; lia).
    done.
  - destruct (get_timeline_run me q st Hge) as (tjs' & Hrun' & Hd & _).
    rewrite Hrun' in Hrun. injection Hrun as _ <-.
    unfold docs in Hx. rewrite Hd in Hx.
    apply elem_of_take in Hx as (i & Hx & _).
    rewrite lookup_drop in Hx. apply list_elem_of_lookup_2 in Hx.
    apply elem_of_sort_newest, list_elem_of_filter in Hx. tauto.
Qed.

(** X15.  Retweeting puts a tweet on the caller's timeline and undoing
    the retweet of a stranger's tweet takes it off: after the retweet of
    a non-reply tweet the stored tweet is eligible for the caller, and is
    on page 1 when the caller has at most 10 eligible tweets; after the
    un-retweet of a tweet whose author is neither the caller nor followed
    by the caller, no page of the caller's timeline carries a tweet with
    that identifier. *)
Theorem retweet_controls_timeline me id oid t st :
  castObjectId id = Some oid →
  find_tweet oid (tweets st) = Some t →
  let st' := (post_retweet me id st).1 in
  (Tweet.isReply t = false → User.id me ∉ Tweet.retweets t →
     ∃ t', find_tweet oid (tweets st') = Some t'
       ∧ Tweet.retweets t' = User.id me :: Tweet.retweets t
       ∧ eligible me t'
       ∧ (length (filter (eligible me) (tweets st')) ≤ 10 →
          ∃ tjs, get_timeline me None st' = (st', json (BTweets tjs))
                 ∧ t' ∈ docs tjs))
  ∧ (User.id me ∈ Tweet.retweets t → Tweet.user t ≠ User.id me →
     Tweet.user t ∉ User.following me →
     ∀ q st'' tjs, get_timeline me q st' = (st'', json (BTweets tjs)) →
       ∀ x, x ∈ docs tjs → Tweet._id x ≠ oid).
Proof.
  intros Hc Hf st'. pose proof (find_tweet_Some _ _ _ Hf) as [Hid Hin].
  assert (Hst : st' = set_tweets
            ((λ t0, if decide (Tweet._id t0 = oid)
                    then Tweet.set_retweets
                           (toggled (User.id me) (Tweet.retweets t)) t
                    else t0) <$> tweets st) st).
  { unfold st'. by rewrite (post_retweet_run me id oid t st Hc Hf). }
  split.
  - intros Hrep Hnin.
    assert (Ht : toggled (User.id me) (Tweet.retweets t)
                 = User.id me :: Tweet.retweets t)
      by (unfold toggled; by rewrite decide_False).
    rewrite Ht in Hst.
    set (t' := Tweet.set_retweets (User.id me :: Tweet.retweets t) t) in *.
    assert (Hel : eligible me t').
    { split; [done|]. right. right. left. }
    assert (Hin' : t' ∈ tweets st').
    { rewrite Hst. cbn [tweets set_tweets]. apply list_elem_of_fmap.
      exists t. split; [by rewrite decide_True|done]. }
    exists t'. split; [|split; [done|split; [done|]]].
    + rewrite Hst. cbn [tweets set_tweets]. rewrite find_tweet_replace by done.
      rewrite Hf. simpl. by rewrite decide_True.
    + intros Hlen.
      destruct (get_timeline_run me None st') as (tjs & Hrun & Hd & _); [done|].
      exists tjs. split; [done|]. unfold docs. rewrite Hd.
      change (Z.to_nat ((or_one (parseInt None) - 1) * 10)) with 0.
      rewrite drop_0, take_ge.
      * apply elem_of_sort_newest, list_elem_of_filter. done.
      * unfold sort_newest. by rewrite merge_sort_Permutation.
  - intros Hmem Hown Hfol q st'' tjs Hrun x Hx Hxid.
    destruct (get_timeline_docs me q st' st'' tjs Hrun x Hx) as [Hxin Hxel].
    rewrite Hst in Hxin. cbn [tweets set_tweets] in Hxin.
    apply list_elem_of_fmap in Hxin as (t0 & -> & _).
    destruct (decide (Tweet._id t0 = oid)) as [e|n]; [|done].
    destruct Hxel as [_ [H|[H|H]]]; simpl in H; try done.
    unfold toggled in H. rewrite decide_True in H by done.
    by apply not_elem_filter_ne in H.
Qed.

Lemma retweet_controls_timeline_witness :
  ∃ tjs, get_timeline bob None (post_retweet bob tweet3_id demo).1
         = ((post_retweet bob tweet3_id demo).1, json (BTweets tjs))
         ∧ Tweet.set_retweets [bob_id; alice_id] tweet3 ∈ docs tjs.
Proof.
  destruct (retweet_controls_timeline bob tweet3_id tweet3_id tweet3 demo
              eq_refl eq_refl) as [H _].
  destruct H as (t' & _ & _ & _ & Hpage); [done | | ].
  - apply not_elem_of_cons. split; [by vm_compute | apply not_elem_of_nil].
  - destruct Hpage as (tjs & Hrun & Hin); [vm_compute; lia|].
    exists tjs. split; [exact Hrun|].
    assert (Hrun' := Hrun). vm_compute in Hrun'.
    injection Hrun' as <-. vm_compute. left.
Defined.

(** ** Follow: composition and invariants *)

Lemma post_follow_found me id tu now1 now2 st :
  authenticated st me → is_id_text id → id ≠ User.id me →
  find_user id (users st) = Some tu →
  post_follow me id now1 now2 st =
    if decide (id ∈ User.following me)
    then (toggle_follow_store (User.id me) id (pull id) (pull (User.id me))
            now1 now2 st,
          json (BToggle "isFollowing" false (User.id me)))
    else (toggle_follow_store (User.id me) id (addToSet id)
            (addToSet (User.id me)) now1 now2 st,
          json (BToggle "isFollowing" true (User.id me))).
Proof.
  intros [Hcid Hme] Hid Hne Htu. unfold is_id_text in Hid, Hcid.
  unfold post_follow. run_db. rewrite decide_False by done.
  rewrite Hid. simpl. rewrite Htu. unfold includes.
  destruct (decide (id ∈ User.following me)) as [Hin|Hnin].
  - rewrite bool_decide_eq_true_2 by done. rewrite Hcid. done.
  - rewrite bool_decide_eq_false_2 by done. rewrite Hcid. done.
Qed.

Lemma post_follow_store_cases me id now1 now2 st :
  authenticated st me → is_id_text id →
  (post_follow me id now1 now2 st).1 = st
  ∨ (id ≠ User.id me
     ∧ ((post_follow me id now1 now2 st).1
        = toggle_follow_store (User.id me) id (pull id) (pull (User.id me))
            now1 now2 st
        ∨ (post_follow me id now1 now2 st).1
        = toggle_follow_store (User.id me) id (addToSet id)
            (addToSet (User.id me)) now1 now2 st)).
Proof.
  intros Hauth Hid.
  destruct (decide (id = User.id me)) as [->|Hne].
  - left. unfold post_follow. run_db. by rewrite decide_True.
  - destruct (find_user id (users st)) as [tu|] eqn:Htu.
    + right. split; [done|].
      rewrite (post_follow_found me id tu now1 now2 st) by done.
      destruct (decide (id ∈ User.following me)); [by left | by right].
    + left. unfold post_follow. run_db. rewrite decide_False by done.
      rewrite Hid. simpl. by rewrite Htu.
Qed.

Lemma find_user_toggle_follow c id f g now1 now2 st a :
  find_user a (users (toggle_follow_store c id f g now1 now2 st))
  = (λ u, if decide (User._id u = id)
          then touch now2 (on_path Followers g) u else u)
      <$> ((λ u, if decide (User._id u = c)
                 then touch now1 (on_path Following f) u else u)
             <$> find_user a (users st)).
Proof.
  unfold toggle_follow_store. cbn [users set_users].
  by rewrite !find_user_update by (intros; apply touch_on_path_id).
Qed.

Lemma elem_of_addToSet_other (x y : string) l :
  y ≠ x → y ∈ addToSet x l ↔ y ∈ l.
Proof.
  intros Hne. unfold addToSet. destruct (decide (x ∈ l)); [done|].
  rewrite elem_of_app, list_elem_of_singleton. tauto.
Qed.

Lemma elem_of_pull_other (x y : string) l :
  y ≠ x → y ∈ pull x l ↔ y ∈ l.
Proof. intros Hne. unfold pull. rewrite list_elem_of_filter. tauto. Qed.

Lemma pull_app_fresh (x : string) l : x ∉ l → pull x (l ++ [x]) = l.
Proof.
  intros Hx. unfold pull. rewrite filter_app, filter_ne_not_elem by done.
  rewrite filter_cons_False by (intros H; by apply H). simpl.
  by rewrite app_nil_r.
Qed.

(** X16.  Follow and then unfollow is the identity on the two lists,
    for a target identifier given in the text form of stored identifiers
    (24 lower-case hexadecimal digits, as the routes themselves emit it):
    from a state where the caller is not in the target's followers and
    the target not in the caller's following, a follow answers
    [isFollowing: true], the next request of the (re-authenticated)
    caller answers [isFollowing: false], and the caller's following list
    and the target's followers list are then what they were.  (With
    another spelling of the identifier the second request would follow
    again, since the route looks the raw text up in the list.) *)
Theorem follow_then_unfollow_restores_lists me id tu n1 n2 n3 n4 st :
  authenticated st me → is_id_text id → id ≠ User.id me →
  find_user id (users st) = Some tu →
  id ∉ User.following me → User.id me ∉ User.followers tu →
  let c := User.id me in
  let st1 := (post_follow me id n1 n2 st).1 in
  (post_follow me id n1 n2 st).2 = json (BToggle "isFollowing" true c)
  ∧ ∃ me1, auth st1 c = Some me1
      ∧ (post_follow me1 id n3 n4 st1).2 = json (BToggle "isFollowing" false c)
      ∧ following_of c (post_follow me1 id n3 n4 st1).1 = following_of c st
      ∧ followers_of id (post_follow me1 id n3 n4 st1).1 = followers_of id st.
Proof.
  intros Hauth Hid Hne Htu Hnf Hnc c st1.
  pose proof Hauth as [Hcid Hme]. unfold auth in Hme.
  pose proof (find_user_Some _ _ _ Hme) as [Hmid _].
  pose proof (find_user_Some _ _ _ Htu) as [Htid _].
  assert (Hst1 : post_follow me id n1 n2 st =
            (toggle_follow_store c id (addToSet id) (addToSet c) n1 n2 st,
             json (BToggle "isFollowing" true c))).
  { rewrite (post_follow_found me id tu n1 n2 st) by done. by rewrite decide_False. }
  unfold st1. rewrite Hst1. cbn [fst snd]. split; [done|].
  set (s1 := toggle_follow_store c id (addToSet id) (addToSet c) n1 n2 st).
  set (me1 := User.set_updatedAt n1
                (User.set_following (User.following me ++ [id])%list me)).
  set (tu1 := User.set_updatedAt n2
                (User.set_followers (User.followers tu ++ [c])%list tu)).
  assert (Hcne : User._id tu ≠ c) by (unfold c in *; congruence).
  assert (Hine : User._id me ≠ id) by (unfold c in *; congruence).
  assert (Hme1 : find_user c (users s1) = Some me1).
  { unfold s1. rewrite find_user_toggle_follow. fold c in Hme. rewrite Hme.
    simpl. rewrite (decide_True (P := User._id me = c)) by exact Hmid.
    unfold touch. simpl. rewrite decide_False by exact Hine.
    unfold addToSet. by rewrite decide_False. }
  assert (Htu1 : find_user id (users s1) = Some tu1).
  { unfold s1. rewrite find_user_toggle_follow, Htu. simpl.
    rewrite (decide_False (P := User._id tu = c)) by exact Hcne.
    rewrite decide_True by exact Htid. unfold touch. simpl.
    unfold addToSet. by rewrite decide_False. }
  exists me1. split; [done|].
  assert (Hauth1 : authenticated s1 me1) by (split; done).
  rewrite (post_follow_found me1 id tu1 n3 n4 s1) by done.
  rewrite decide_True by (simpl; apply elem_of_app; right; left).
  cbn [fst snd]. split; [done|].
  unfold following_of, followers_of. rewrite !find_user_toggle_follow.
  change (User.id me1) with c. rewrite Hme1, Htu1. fold c in Hme. rewrite Hme, Htu.
  simpl. rewrite (decide_True (P := User._id me = c)) by exact Hmid.
  rewrite (decide_False (P := User._id tu = c)) by exact Hcne.
  unfold touch. simpl. rewrite (decide_False (P := User._id me = id)) by exact Hine.
  rewrite (decide_True (P := User._id tu = id)) by exact Htid.
  simpl. by rewrite !pull_app_fresh.
Qed.

Lemma follow_then_unfollow_restores_lists_witness :
  ∃ me1, auth (post_follow alice carol_id 500 501 demo).1 alice_id = Some me1
    ∧ following_of alice_id
        (post_follow me1 carol_id 600 601 (post_follow alice carol_id 500 501 demo).1).1
      = Some [bob_id].
Proof.
  assert (Ha : authenticated demo alice) by (split; reflexivity).
  destruct (follow_then_unfollow_restores_lists alice carol_id carol 500 501 600 601
              demo Ha)
    as (_ & me1 & Hme1 & _ & Hfol & _).
  - reflexivity.
  - by vm_compute.
  - reflexivity.
  - apply not_elem_of_cons. split; [by vm_compute | apply not_elem_of_nil].
  - apply not_elem_of_nil.
  - exists me1. split; [exact Hme1 | exact Hfol].
Defined.

Lemma toggle_follow_lists c id f g now1 now2 st a ua :
  find_user a (users st) = Some ua →
  ∃ ua', find_user a (users (toggle_follow_store c id f g now1 now2 st))
         = Some ua'
    ∧ User._id ua' = User._id ua
    ∧ User.following ua'
      = (if decide (a = c) then f (User.following ua) else User.following ua)
    ∧ User.followers ua'
      = (if decide (a = id) then g (User.followers ua) else User.followers ua).
Proof.
  intros Hua. pose proof (find_user_Some _ _ _ Hua) as [Hid _].
  rewrite find_user_toggle_follow, Hua. simpl. eexists. split; [done|].
  rewrite Hid. unfold touch.
  destruct (decide (a = c)) as [e|n]; simpl; rewrite ?Hid;
    destruct (decide (a = id)); done.
Qed.

(** X17.  The follow relation is stored on both sides, and the follow
    route keeps the two sides in step: for an authenticated caller and a
    well-formed target, every pair of users whose lists agreed before the
    request agrees after it, and after a request that found the target
    the pair (caller, target) agrees whether or not it did before. *)
Theorem follow_keeps_both_sides_consistent me id now1 now2 st :
  authenticated st me → is_id_text id →
  let st' := (post_follow me id now1 now2 st).1 in
  (∀ a b, follow_consistent st a b → follow_consistent st' a b)
  ∧ (id ≠ User.id me → is_Some (find_user id (users st)) →
     follow_consistent st' (User.id me) id).
Proof.
  intros Hauth Hid st'. pose proof Hauth as [Hcid Hme]. unfold auth in Hme.
  assert (Hstep : ∀ f g,
    (∀ y l, y ≠ id → y ∈ f l ↔ y ∈ l) →
    (∀ y l, y ≠ User.id me → y ∈ g l ↔ y ∈ l) →
    (∀ l l', id ∈ f l ↔ User.id me ∈ g l') →
    id ≠ User.id me →
    ∀ a b, (a = User.id me ∧ b = id) ∨ follow_consistent st a b →
           follow_consistent
             (toggle_follow_store (User.id me) id f g now1 now2 st) a b).
  { intros f g Hf Hg Hfg Hne a b Hab ua' ub' Hua' Hub'.
    rewrite find_user_toggle_follow in Hua', Hub'.
    destruct (find_user a (users st)) as [ua|] eqn:Hua; [|done].
    destruct (find_user b (users st)) as [ub|] eqn:Hub; [|done].
    destruct (toggle_follow_lists (User.id me) id f g now1 now2 st a ua Hua)
      as (ua2 & Hua2 & _ & Hfol & _).
    destruct (toggle_follow_lists (User.id me) id f g now1 now2 st b ub Hub)
      as (ub2 & Hub2 & _ & _ & Hfrs).
    rewrite find_user_toggle_follow, Hua in Hua2.
    rewrite find_user_toggle_follow, Hub in Hub2.
    rewrite Hua2 in Hua'. rewrite Hub2 in Hub'.
    injection Hua' as <-. injection Hub' as <-. rewrite Hfol, Hfrs.
    destruct (decide (a = User.id me)) as [->|Ha],
             (decide (b = id)) as [->|Hb].
    - apply Hfg.
    - rewrite Hf by done. destruct Hab as [[_ ?]|Hc]; [done|]. by apply Hc.
    - rewrite Hg by done. destruct Hab as [[? _]|Hc]; [done|]. by apply Hc.
    - destruct Hab as [[? _]|Hc]; [done|]. by apply Hc. }
  assert (Hadd : ∀ a b, id ≠ User.id me →
    (a = User.id me ∧ b = id) ∨ follow_consistent st a b →
    follow_consistent
      (toggle_follow_store (User.id me) id (addToSet id) (addToSet (User.id me))
         now1 now2 st)
      a b).
  { intros a b Hne. apply Hstep; [| |intros l l'|done].
    - intros y l Hy. by apply elem_of_addToSet_other.
    - intros y l Hy. by apply elem_of_addToSet_other.
    - split; intros _; apply elem_of_addToSet. }
  assert (Hpull : ∀ a b, id ≠ User.id me →
    (a = User.id me ∧ b = id) ∨ follow_consistent st a b →
    follow_consistent
      (toggle_follow_store (User.id me) id (pull id) (pull (User.id me))
         now1 now2 st)
      a b).
  { intros a b Hne. apply Hstep; [| |intros l l'|done].
    - intros y l Hy. by apply elem_of_pull_other.
    - intros y l Hy. by apply elem_of_pull_other.
    - split; intros H; by apply not_elem_filter_ne in H. }
  split.
  - intros a b Hab. unfold st'.
    destruct (post_follow_store_cases me id now1 now2 st Hauth Hid)
      as [->|(Hne & [->| ->])]; [done| |]; [apply Hpull | apply Hadd]; auto.
  - intros Hne [tu Htu]. unfold st'.
    rewrite (post_follow_found me id tu now1 now2 st) by done.
    destruct (decide (id ∈ User.following me)); cbn [fst];
      [apply Hpull | apply Hadd]; auto.
Qed.

Lemma follow_keeps_both_sides_consistent_witness :
  follow_consistent (post_follow alice carol_id 500 501 demo).1 alice_id carol_id.
Proof.
  assert (Ha : authenticated demo alice) by (split; reflexivity).
  destruct (follow_keeps_both_sides_consistent alice carol_id 500 501 demo Ha eq_refl)
    as [_ H].
  apply H; [by vm_compute | by eexists].
Defined.

(** X18.  For an authenticated caller and a well-formed target in the
    text form of stored identifiers, the follow route never makes a user
    follow themselves: if no stored user is in their own following list
    before the request, none is after it. *)
Theorem follow_preserves_no_self_follow me id now1 now2 st :
  authenticated st me → is_id_text id →
  no_self_follow st → no_self_follow (post_follow me id now1 now2 st).1.
Proof.
  intros Hauth Hid Hinv.
  assert (Hstep : ∀ f g, (∀ y l, y ≠ id → y ∈ f l → y ∈ l) → id ≠ User.id me →
            no_self_follow (toggle_follow_store (User.id me) id f g now1 now2 st)).
  { intros f g Hf Hne u' Hu'. unfold toggle_follow_store in Hu'.
    cbn [users set_users] in Hu'.
    apply list_elem_of_fmap in Hu' as (u1 & -> & Hu1).
    apply list_elem_of_fmap in Hu1 as (u & -> & Hu).
    specialize (Hinv u Hu).
    unfold touch.
    destruct (decide (User._id u = User.id me)) as [e|n]; simpl.
    - rewrite (decide_False (P := User._id u = id)) by congruence.
      simpl. intros Hin. apply Hf in Hin; [done|congruence].
    - destruct (decide (User._id u = id)); simpl; done. }
  destruct (post_follow_store_cases me id now1 now2 st Hauth Hid)
    as [->|(Hne & [->| ->])]; [done| |]; apply Hstep; try done.
  - intros y l Hy Hin. by apply elem_of_pull_other in Hin.
  - intros y l Hy Hin. by apply elem_of_addToSet_other in Hin.
Qed.

Lemma follow_preserves_no_self_follow_witness :
  no_self_follow (post_follow alice carol_id 500 501 demo).1.
Proof.
  apply (follow_preserves_no_self_follow alice carol_id 500 501 demo).
  - split; reflexivity.
  - reflexivity.
  - intros u Hu. apply list_elem_of_In in Hu. simpl in Hu.
    destruct Hu as [<-|[<-|[<-|[]]]]; simpl.
    + apply not_elem_of_cons. split; [by vm_compute | apply not_elem_of_nil].
    + apply not_elem_of_nil.
    + apply not_elem_of_nil.
Defined.

(** ** Pages of the timeline *)

(** X19.  Consecutive pages of the timeline tile the ranking: for a page
    number [p >= 1], the tweets of page [p] followed by the tweets of page
    [p + 1] are the 20 tweets of the ranking from position [(p-1)*10] on,
    and when page [p] has fewer than 10 tweets, page [p + 1] is empty. *)
Theorem timeline_pages_tile_the_ranking me q1 q2 p st :
  parseInt q1 = Some p → parseInt q2 = Some (p + 1)%Z → (1 ≤ p)%Z →
  let ranking := sort_newest (filter (eligible me) (tweets st)) in
  ∃ a b, get_timeline me q1 st = (st, json (BTweets a))
    ∧ get_timeline me q2 st = (st, json (BTweets b))
    ∧ (docs a ++ docs b)%list = take 20 (drop (Z.to_nat ((p - 1) * 10)) ranking)
    ∧ (length a < 10 → b = []).
Proof.
  intros Hq1 Hq2 Hp ranking.
  assert (H1 : or_one (parseInt q1) = p).
  { rewrite Hq1. simpl. destruct (Z.eqb_spec p 0); [lia | done]. }
  assert (H2 : or_one (parseInt q2) = (p + 1)%Z).
  { rewrite Hq2. simpl. destruct (Z.eqb_spec (p + 1) 0); [lia | done]. }
  destruct (get_timeline_run me q1 st) as (a & Ha & Hda & _); [lia|].
  destruct (get_timeline_run me q2 st) as (b & Hb & Hdb & _); [lia|].
  rewrite H1 in Hda. rewrite H2 in Hdb. fold ranking in Hda, Hdb.
  replace (Z.to_nat ((p + 1 - 1) * 10)) with (Z.to_nat ((p - 1) * 10) + 10)
    in Hdb by lia.
  rewrite <- drop_drop in Hdb.
  exists a, b. split; [done|]. split; [done|]. unfold docs. rewrite Hda, Hdb.
  split; [apply (take_take_drop _ 10 10)|].
  intros Hlen. rewrite <- (length_fmap tj_doc), Hda, length_take in Hlen.
  apply fmap_nil_inv with (f := tj_doc). rewrite Hdb.
  rewrite drop_ge by lia. done.
Qed.

Lemma timeline_pages_tile_the_ranking_witness :
  ∃ a b, get_timeline alice (Some "1") demo = (demo, json (BTweets a))
    ∧ get_timeline alice (Some "2") demo = (demo, json (BTweets b))
    ∧ b = [].
Proof.
  destruct (timeline_pages_tile_the_ranking alice (Some "1") (Some "2") 1 demo
              eq_refl eq_refl) as (a & b & Ha & Hb & _ & Hshort); [lia|].
  exists a, b. split; [exact Ha|]. split; [exact Hb|]. apply Hshort.
  assert (Ha' := Ha). vm_compute in Ha'. injection Ha' as <-. simpl. lia.
Defined.

(** X20.  A page parameter that reads as a negative number reaches the
    store as a negative skip: the timeline answers 500 and writes
    nothing. *)
Theorem timeline_negative_page_is_500 me q p st :
  parseInt q = Some p → (p < 0)%Z →
  get_timeline me q st = (st, status_send 500 "Server error").
Proof.
  intros Hq Hp.
  unfold get_timeline, try_catch, get_tweets, skip, throw, limit,
    mbind, db_bind, mret, db_ret.
  rewrite Hq.
  assert (Hpage : or_one (Some p) = p).
  { simpl. destruct (Z.eqb_spec p 0); [lia | done]. }
  rewrite Hpage.
  replace ((p - 1) * Z.of_nat 10 <? 0)%Z with true
    by (symmetry; apply Z.ltb_lt; lia).
  done.
Qed.

Lemma timeline_negative_page_is_500_witness :
  get_timeline alice (Some "-3") demo = (demo, status_send 500 "Server error").
Proof.
  apply (timeline_negative_page_is_500 alice (Some "-3") (-3) demo eq_refl).
  lia.
Defined.

(** ** Search: case of the query, hidden fields *)

(** X21.  The search ignores the case of the query: two non-empty
    queries free of regular-expression operators that differ only in the
    case of their letters get the same answer. *)
Theorem search_ignores_case_of_query q q' st :
  q ≠ "" → q' ≠ "" → no_meta q → no_meta q' →
  toLowerCase q = toLowerCase q' →
  get_search (Some q) st = get_search (Some q') st.
Proof.
  intros Hne Hne' Hq Hq' Hlow.
  assert (Heq : ∀ s, regex_test (literals q) s = regex_test (literals q') s).
  { intros s. rewrite !regex_test_literals. unfold ci_includes. by rewrite Hlow. }
  unfold get_search. destruct q as [|a q]; [done|]. destruct q' as [|a' q']; [done|].
  rewrite !regex_compile_literals by done.
  unfold try_catch, get_users, get_tweets, limit, mbind, db_bind, mret, db_ret.
  rewrite (list_filter_iff
             (λ t, regex_test (literals (String a q)) (Tweet.content t))
             (λ t, regex_test (literals (String a' q')) (Tweet.content t)))
    by (intros t; by rewrite Heq).
  rewrite (list_filter_iff
             (λ u, regex_test (literals (String a q)) (User.name u)
                   || regex_test (literals (String a q)) (User.username u))
             (λ u, regex_test (literals (String a' q')) (User.name u)
                   || regex_test (literals (String a' q')) (User.username u)))
    by (intros u; by rewrite !Heq).
  done.
Qed.

Lemma search_ignores_case_of_query_witness :
  get_search (Some "HeLLo") demo = get_search (Some "hello") demo.
Proof.
  apply (search_ignores_case_of_query "HeLLo" "hello" demo); done.
Defined.

(** X22.  Six routes that answer with user records hide the password:
    in every answer of the user-by-username, suggestions and search
    routes each user has neither password nor email, and in every answer
    of the profile update and of the two image updates the user has no
    password.  (The route [GET /users/me] answers with the record the
    authentication middleware attached to the request, whatever it
    holds; it is not among the six.) *)
Theorem six_routes_hide_the_password me username q req_body file now st :
  (∀ uj, uj ∈ users_of_response (get_user_by_username username st).2 →
         uj_password uj = None ∧ uj_email uj = None)
  ∧ (∀ us uj, (get_suggestions me st).2 = inl us → uj ∈ us →
              uj_password uj = None ∧ uj_email uj = None)
  ∧ (∀ r uj, get_search q st = Some r → uj ∈ users_of_response r.2 →
             uj_password uj = None ∧ uj_email uj = None)
  ∧ (∀ uj, uj ∈ users_of_response (put_users_me me req_body now st).2 →
           uj_password uj = None)
  ∧ (∀ uj, uj ∈ users_of_response (put_profile_image me file now st).2 →
           uj_password uj = None)
  ∧ (∀ uj, uj ∈ users_of_response (put_cover_image me file now st).2 →
           uj_password uj = None).
Proof.
  split; [|split; [|split; [|split; [|split]]]].
  - intros uj. unfold get_user_by_username, User_findOne_username. run_db.
    destruct (find _ _); simpl; [|by intros ?%elem_of_nil].
    intros ->%list_elem_of_singleton. done.
  - intros us uj.
    unfold get_suggestions, get_users, limit, mbind, db_bind, mret, db_ret.
    cbn [snd]. intros [= <-] (u & -> & _)%list_elem_of_fmap. done.
  - intros r uj. unfold get_search.
    destruct q as [[|c q]|]; try (intros [= <-]; by intros ?%elem_of_nil).
    destruct (regex_compile _); [|intros [= <-]; by intros ?%elem_of_nil|done].
    unfold try_catch, get_users, get_tweets, limit, mbind, db_bind, mret, db_ret.
    match goal with
    | |- context [db_map populate_user ?l st] =>
      destruct (db_map_populate_user l st) as (tjs & -> & _)
    end.
    intros [= <-]. cbn [snd users_of_response body json].
    intros (u & -> & _)%list_elem_of_fmap. done.
  - intros uj. unfold put_users_me. run_db.
    destruct (castObjectId (User.id me)); simpl; [|by intros ?%elem_of_nil].
    destruct (cast_fields _); simpl; [|by intros ?%elem_of_nil].
    destruct (find_user _ _); simpl; [|by intros ?%elem_of_nil].
    intros ->%list_elem_of_singleton. done.
  - intros uj. unfold put_profile_image, User_findByIdAndUpdate_image. run_db.
    destruct file; simpl; [|by intros ?%elem_of_nil].
    destruct (castObjectId (User.id me)); simpl; [|by intros ?%elem_of_nil].
    destruct (find_user _ _); simpl; [|by intros ?%elem_of_nil].
    intros ->%list_elem_of_singleton. done.
  - intros uj. unfold put_cover_image, User_findByIdAndUpdate_image. run_db.
    destruct file; simpl; [|by intros ?%elem_of_nil].
    destruct (castObjectId (User.id me)); simpl; [|by intros ?%elem_of_nil].
    destruct (find_user _ _); simpl; [|by intros ?%elem_of_nil].
    intros ->%list_elem_of_singleton. done.
Qed.

(** ** Profile update twice, orphaned replies *)

Lemma touch_set_fields_twice cs n1 n2 u :
  touch n2 (set_fields cs) (touch n1 (set_fields cs) u)
  = touch n2 (set_fields cs) u.
Proof.
  destruct cs as [[n|] [b|] [l|] [w|]]; done.
Qed.

(** X23.  Sending the same profile update twice has the effect of sending
    it once at the time of the second request: the second request, served
    at clock reading [n2] after the first was served at [n1], gives the
    answer and leaves the store that a single request at [n2] gives, for
    every caller, body and store.  The first request leaves no trace but
    the update timestamp, which the second overwrites. *)
Theorem update_me_twice_is_update_once me (req_body : gmap string JsonValue)
    n1 n2 st :
  put_users_me me req_body n2 (put_users_me me req_body n1 st).1
  = put_users_me me req_body n2 st.
Proof.
  unfold put_users_me. run_db.
  destruct (castObjectId (User.id me)) as [oid|]; simpl; [|done].
  destruct (cast_fields _) as [cs|]; simpl; [|done].
  rewrite (find_user_update _ _ (touch n1 (set_fields cs))) by done.
  f_equal.
  - unfold set_users. simpl. f_equal.
    rewrite <- list_fmap_compose. apply list_fmap_ext. intros _ u _. simpl.
    destruct (decide (User._id u = oid)) as [e|n]; simpl.
    + rewrite decide_True by done. apply touch_set_fields_twice.
    + by rewrite decide_False.
  - destruct (find_user oid (users st)) as [u|] eqn:Hu; simpl; [|done].
    apply find_user_Some in Hu as [Hu _].
    rewrite decide_True by done. by rewrite touch_set_fields_twice.
Qed.

Lemma find_tweet_filter_other oid rid ts :
  rid ≠ oid →
  find_tweet rid (filter (λ t0, Tweet._id t0 ≠ oid) ts) = find_tweet rid ts.
Proof.
  intros Hne. induction ts as [|t0 ts IH]; [done|].
  destruct (decide (Tweet._id t0 = oid)) as [e|n].
  - rewrite filter_cons_False by (intros H; by apply H). simpl.
    rewrite bool_decide_eq_false_2 by congruence. done.
  - rewrite filter_cons_True by done. simpl.
    destruct (bool_decide (Tweet._id t0 = rid)); done.
Qed.

(** X24.  After its owner has deleted a tweet, a reply to it stays in
    the store as it was, its parent reference now naming no stored tweet,
    and reading the reply by identifier answers 200 with the reply's own
    identifier, author, content and lists and with a null parent. *)
Theorem orphaned_reply_reads_with_null_parent me id oid t rid roid r st :
  castObjectId id = Some oid →
  find_tweet oid (tweets st) = Some t →
  Tweet.user t = User.id me →
  castObjectId rid = Some roid →
  find_tweet roid (tweets st) = Some r →
  Tweet.parent r = Some oid → roid ≠ oid →
  let st' := (delete_tweet me id st).1 in
  find_tweet roid (tweets st') = Some r
  ∧ find_tweet oid (tweets st') = None
  ∧ ∃ tj, get_tweet rid st' = (st', json (BTweet tj))
        ∧ Tweet._id (tj_doc tj) = roid
        ∧ Tweet.content (tj_doc tj) = Tweet.content r
        ∧ Tweet.likes (tj_doc tj) = Tweet.likes r
        ∧ Tweet.retweets (tj_doc tj) = Tweet.retweets r
        ∧ tj_user tj = Some (card <$> find_user (Tweet.user r) (users st))
        ∧ tj_parent tj = Some None.
Proof.
  intros Hc Hf Hown Hrc Hrf Hp Hne st'.
  assert (Hst : st' = set_tweets (filter (λ t0, Tweet._id t0 ≠ oid) (tweets st)) st).
  { unfold st'. by erewrite delete_tweet_by_owner. }
  assert (Hr' : find_tweet roid (tweets st') = Some r).
  { rewrite Hst. cbn [tweets set_tweets]. by rewrite find_tweet_filter_other. }
  assert (Hgone : find_tweet oid (tweets st') = None).
  { rewrite Hst. apply find_tweet_deleted. }
  split; [done|]. split; [done|].
  unfold get_tweet. run_db. rewrite Hrc. simpl. rewrite Hr'.
  eexists. split; [reflexivity|]. simpl.
  split; [by apply find_tweet_Some in Hrf as [? _]|].
  split; [done|]. split; [done|]. split; [done|].
  split; [by rewrite Hst|].
  rewrite Hp. simpl. rewrite Hgone. done.
Qed.

Lemma orphaned_reply_reads_with_null_parent_witness :
  ∃ tj, get_tweet tweet2_id (delete_tweet bob tweet1_id demo).1
        = ((delete_tweet bob tweet1_id demo).1, json (BTweet tj))
        ∧ Tweet.content (tj_doc tj) = Tweet.content tweet2
        ∧ tj_parent tj = Some None.
Proof.
  destruct (orphaned_reply_reads_with_null_parent bob tweet1_id tweet1_id tweet1
              tweet2_id tweet2_id tweet2 demo)
    as (_ & _ & tj & Hrun & _ & Hcont & _ & _ & _ & Hpar);
    try reflexivity.
  - by vm_compute.
  - exists tj. split; [exact Hrun|]. split; [exact Hcont | exact Hpar].
Defined.
